(** * Sentiment analysis by fine-tuning a word language model

    A shallow embedding of the notebook [sentiment_analysis.ipynb]: the
    masked mean-pooling layer and the network built on it, the
    preprocessing helpers, the batch assembler, the bucket sampler, the
    evaluation pass and the single-sentence inference cell.

    Numbers.  The notebook computes in 32-bit floating point.  Here a
    finite float is a rational ([Q]); a non-finite result (an infinity or
    a NaN, which is what a floating-point division by zero produces) is
    [None].  Only additions, multiplications, divisions and comparisons
    are performed on rationals; the sigmoid, which is transcendental, is
    taken over the reals ([R]).  Rounding is not modelled. *)

From Stdlib Require Import String Ascii Bool Arith PeanoNat ZArith List.
From Stdlib Require Import Permutation QArith Qround Reals Lia Lra.
From Stdlib Require Lqa Qreals.
Import ListNotations.

(** ** A small error monad: [None] is a raised exception *)

Definition bind {A B : Type} (m : option A) (k : A -> option B) : option B :=
  match m with
  | Some a => k a
  | None => None
  end.

Notation "x <- m ;; k" := (bind m (fun x => k))
  (at level 61, m at next level, right associativity).

(** ** Tensors *)

Module NDArray.

Local Open Scope Q_scope.

(** A dense array of rank 3, laid out (T, N, C): time, batch, channel.
    [get3] is read only inside the shape. *)
Record NDArray3 : Type := mkNDArray3 {
  shape3 : nat * nat * nat;
  get3 : nat -> nat -> nat -> Q
}.

(** A dense array of rank 2 with entries in [A]. *)
Record NDArray2 (A : Type) : Type := mkNDArray2 {
  shape2 : nat * nat;
  get2 : nat -> nat -> A
}.

Arguments mkNDArray2 {A} _ _.
Arguments shape2 {A} _.
Arguments get2 {A} _ _ _.

(** The sum of [f 0], ..., [f (n-1)]. *)
Fixpoint sum_upto (n : nat) (f : nat -> Q) : Q :=
  match n with
  | O => 0
  | S k => sum_upto k f + f k
  end.

(** The float value of an integer count. *)
Definition float_of_nat (n : nat) : Q := inject_Z (Z.of_nat n).

(** Floating-point division by a count: dividing by zero gives no finite
    value. *)
Definition fdiv (x : Q) (d : nat) : option Q :=
  if (d =? 0)%nat then None else Some (x / float_of_nat d).

(** Modelled from the spec: MXNet's operator [SequenceMask] is library code,
    not part of the repository.  With [use_sequence_length=True] every
    position [t >= sequence_length[j]] of column [j] along the time axis is
    replaced by the mask value 0, so that it is excluded from what follows
    whatever it holds; the other positions are kept.  [sequence_length] must
    have one entry per batch column. *)
Definition SequenceMask (data : NDArray3) (sequence_length : list nat)
  : option NDArray3 :=
  let '(_, N, _) := shape3 data in
  if (length sequence_length =? N)%nat then
    Some {| shape3 := shape3 data;
            get3 := fun t j c =>
              if (t <? nth j sequence_length O)%nat
              then get3 data t j c else 0 |}
  else None.

(** Modelled from the spec: MXNet's [sum] with [axis=0] (library code) adds
    up the time axis: the result has shape (N, C). *)
Definition sum_axis0 (data : NDArray3) : NDArray2 Q :=
  let '(T, N, C) := shape3 data in
  {| shape2 := (N, C);
     get2 := fun j c => sum_upto T (fun t => get3 data t j c) |}.

(** Modelled from the spec: MXNet's [expand_dims] with [axis=1] (library
    code) turns a vector of [N] entries into an (N, 1) array. *)
Definition expand_dims1 (v : list nat) : NDArray2 nat :=
  {| shape2 := (length v, 1%nat);
     get2 := fun j _ => nth j v O |}.

(** Two extents broadcast together when they are equal or one of them is
    1. *)
Definition broadcastable (d d' : nat) : bool :=
  ((d =? d') || (d =? 1) || (d' =? 1))%nat.

Definition broadcast_dim (d d' : nat) : nat :=
  if (d =? 1)%nat then d' else d.

(** The index read in an operand of extent [d]. *)
Definition broadcast_index (d i : nat) : nat :=
  if (d =? 1)%nat then O else i.

(** Modelled from the spec: MXNet's [broadcast_div] (library code) divides
    entry by entry after broadcasting the axes of extent 1; shapes that do
    not broadcast together are an error. *)
Definition broadcast_div (lhs : NDArray2 Q) (rhs : NDArray2 nat)
  : option (NDArray2 (option Q)) :=
  let '(n, c) := shape2 lhs in
  let '(n', c') := shape2 rhs in
  if broadcastable n n' && broadcastable c c' then
    Some {| shape2 := (broadcast_dim n n', broadcast_dim c c');
            get2 := fun j k =>
              fdiv (get2 lhs (broadcast_index n j) (broadcast_index c k))
                   (get2 rhs (broadcast_index n' j) (broadcast_index c' k)) |}
  else None.

(** A rank-3 array given by nested lists, time-major. *)
Definition of_list3 (T N C : nat) (l : list (list (list Q))) : NDArray3 :=
  {| shape3 := (T, N, C);
     get3 := fun t j c => nth c (nth j (nth t l []) []) 0 |}.

(** [c] times a tensor, entry by entry. *)
Definition smul (c : Q) (F : NDArray3) : NDArray3 :=
  {| shape3 := shape3 F; get3 := fun t j k => c * get3 F t j k |}.

(** The rows of a rank-2 array, for display. *)
Definition to_list2 {A : Type} (x : NDArray2 A) : list (list A) :=
  let '(n, c) := shape2 x in
  map (fun j => map (fun k => get2 x j k) (seq 0 c)) (seq 0 n).

End NDArray.

(** ** The model *)

Module MeanPoolingLayer.

Import NDArray.
Local Open Scope Q_scope.

(** [MeanPoolingLayer.hybrid_forward]: data has shape (T, N, C).  The
    valid lengths are whole numbers held as floats (the lengths recorded by
    the batch assembler, cast with [astype(np.float32)]); they are kept as
    naturals and turned into floats where the division reads them. *)
Definition hybrid_forward (data : NDArray3) (valid_length : list nat)
  : option (NDArray2 (option Q)) :=
  masked_encoded <- SequenceMask data valid_length ;;
  agg_state <- broadcast_div (sum_axis0 masked_encoded)
                             (expand_dims1 valid_length) ;;
  Some agg_state.

(** What the specification asks of the layer: for example [j], the mean of
    the features at the positions [t] of the tensor with
    [t < valid_length[j]]. *)
Definition pooled_spec (F : NDArray3) (valid_length : list nat)
  (j c : nat) : Q :=
  let '(T, _, _) := shape3 F in
  let v := nth j valid_length O in
  (1 / float_of_nat v) * sum_upto (Nat.min v T) (fun t => get3 F t j c).

End MeanPoolingLayer.

Module SentimentNet.

Import NDArray.
Local Open Scope Q_scope.

(** Floating-point addition and multiplication: a non-finite operand gives
    a non-finite result. *)
Definition fadd (x y : option Q) : option Q :=
  match x, y with
  | Some a, Some b => Some (a + b)
  | _, _ => None
  end.

Definition fmul (x y : option Q) : option Q :=
  match x, y with
  | Some a, Some b => Some (a * b)
  | _, _ => None
  end.

(** The dot product of row [j] of [x] with the weight vector. *)
Fixpoint dot (n : nat) (x : nat -> option Q) (w : nat -> Q) : option Q :=
  match n with
  | O => Some 0
  | S k => fadd (dot k x w) (fmul (x k) (Some (w k)))
  end.

Section Net.

(** The embedding and the encoder come from the pre-trained language model
    ([net.embedding = lm_model.embedding], [net.encoder = lm_model.encoder]);
    the weight row and the bias of [Dense(1)] are the trained parameters. *)
Variable embedding : NDArray2 nat -> NDArray3.
Variable encoder : NDArray3 -> NDArray3.
Variable weight : nat -> Q.
Variable bias : Q.

(** [gluon.nn.Dropout(dropout)]: the notebook sets [dropout = 0], and
    outside of training the layer is the identity at any rate. *)
Definition Dropout (x : NDArray2 (option Q)) : NDArray2 (option Q) := x.

(** [gluon.nn.Dense(1, flatten=False)]: one output unit per row. *)
Definition Dense (x : NDArray2 (option Q)) : NDArray2 (option Q) :=
  let '(n, c) := shape2 x in
  {| shape2 := (n, 1%nat);
     get2 := fun j _ => fadd (dot c (get2 x j) weight) (Some bias) |}.

(** [self.output]: dropout, then the dense layer. *)
Definition output (x : NDArray2 (option Q)) : NDArray2 (option Q) :=
  Dense (Dropout x).

(** [SentimentNet.hybrid_forward]. *)
Definition hybrid_forward (data : NDArray2 nat) (valid_length : list nat)
  : option (NDArray2 (option Q)) :=
  let encoded := encoder (embedding data) in
  agg_state <- MeanPoolingLayer.hybrid_forward encoded valid_length ;;
  let out := output agg_state in
  Some out.

End Net.

End SentimentNet.

(** ** The data pipeline *)

Module Data.

Import NDArray.
Local Open Scope Q_scope.

(** [nlp.data.ClipSequence(500)]: at most the first 500 items. *)
Definition length_clip {A : Type} (l : list A) : list A := firstn 500 l.

(** [pool.map]: the results come back in the order of the inputs. *)
Definition pool_map {A B : Type} (f : A -> B) (l : list A) : list B :=
  map f l.

Section Preprocess.

(** The spaCy tokenizer and the vocabulary of the language model. *)
Variable tokenizer : string -> list string.
Variable vocab : string -> nat.

(** [vocab[tokens]]: the index of every token. *)
Definition vocab_getitem (tokens : list string) : list nat :=
  map vocab tokens.

(** [preprocess]: one data point, a review and its rating. *)
Definition preprocess (x : string * Z) : list nat * Z :=
  let '(data, label) := x in
  let label := if (5 <? label)%Z then 1%Z else 0%Z in
  let data := vocab_getitem (length_clip (tokenizer data)) in
  (data, label).

(** [get_length]. *)
Definition get_length (x : list nat * Z) : Q :=
  float_of_nat (length (fst x)).

(** [preprocess_dataset]: the second [pool.map] runs over the dataset that
    the first one produced. *)
Definition preprocess_dataset (dataset : list (string * Z))
  : list (list nat * Z) * list Q :=
  let dataset := pool_map preprocess dataset in
  let lengths := pool_map get_length dataset in
  (dataset, lengths).

End Preprocess.

(** The pad value of [nlp.data.batchify.Pad]. *)
Definition pad_val : nat := O.

(** Modelled from the spec: [nlp.data.batchify.Pad(axis=0, ret_length=True)]
    is library code, not part of the repository.  It pads every sequence of
    the group to the group's maximum length with the fixed pad token id 0,
    keeps the order of the group and records the original lengths.  The
    maximum of an empty group does not exist: that is an error. *)
Definition Pad (arrs : list (list nat)) : option (list (list nat) * list nat) :=
  match arrs with
  | [] => None
  | _ :: _ =>
      let original_length := map (@length nat) arrs in
      let max_size := list_max original_length in
      Some (map (fun ele => ele ++ repeat pad_val (max_size - length ele)) arrs,
            original_length)
  end.

(** Modelled from the spec: [nlp.data.batchify.Stack(dtype='float32')] is
    library code; it stacks the labels, in order, into a vector of 32-bit
    floats.  An empty group is an error. *)
Definition Stack (labels : list Z) : option (list Q) :=
  match labels with
  | [] => None
  | _ :: _ => Some (map inject_Z labels)
  end.

(** A padded batch: the padded token ids (batch-major) with the valid
    lengths, and the labels. *)
Definition batch : Type := (list (list nat) * list nat) * list Q.

(** [batchify_fn = Tuple(Pad(axis=0, ret_length=True), Stack('float32'))]:
    the first function takes the first fields, the second the second. *)
Definition batchify_fn (samples : list (list nat * Z)) : option batch :=
  padded <- Pad (map fst samples) ;;
  labels <- Stack (map snd samples) ;;
  Some (padded, labels).

(** The time extent of a padded batch. *)
Definition max_len (padded : list (list nat)) : nat :=
  match padded with
  | [] => O
  | row :: _ => length row
  end.

(** The number of elements of the padded array. *)
Definition padded_size (padded : list (list nat)) : nat :=
  length (concat padded).

(** Consecutive chunks of [n] items, the last one possibly shorter. *)
Fixpoint chunks_aux {A : Type} (fuel n : nat) (l : list A) : list (list A) :=
  match fuel with
  | O => []
  | S fuel' =>
      match l with
      | [] => []
      | _ :: _ => firstn n l :: chunks_aux fuel' n (skipn n l)
      end
  end.

Definition chunks {A : Type} (n : nat) (l : list A) : list (list A) :=
  chunks_aux (length l) n l.

(** Runs the fallible [f] over a list; the first failure aborts. *)
Fixpoint mapM {A B : Type} (f : A -> option B) (l : list A) : option (list B) :=
  match l with
  | [] => Some []
  | a :: l' => b <- f a ;; bs <- mapM f l' ;; Some (b :: bs)
  end.

(** [gluon.data.DataLoader(dataset, batch_size, shuffle=False, batchify_fn)]:
    the dataset in order, cut into batches of [batch_size], the last batch
    kept. *)
Definition DataLoader (dataset : list (list nat * Z)) (batch_size : nat)
  : option (list batch) :=
  mapM batchify_fn (chunks batch_size dataset).

(** [dataset[i]] for every index of a group; an index outside the dataset
    raises. *)
Definition take_samples (dataset : list (list nat * Z)) (indices : list nat)
  : option (list (list nat * Z)) :=
  mapM (nth_error dataset) indices.

(** [gluon.data.DataLoader(dataset, batch_sampler, batchify_fn)]: one batch
    per index group of the sampler, in the sampler's order. *)
Definition SampledDataLoader (dataset : list (list nat * Z))
  (batch_sampler : list (list nat)) : option (list batch) :=
  mapM (fun indices => samples <- take_samples dataset indices ;;
                       batchify_fn samples)
       batch_sampler.

(** What the specification asks for examples without tokens: the loader
    rejects the dataset with an error, or no batch carries a valid length
    of 0. *)
Definition rejected_or_filtered (tokenizer : string -> list string)
  (vocab : string -> nat) (dataset : list (string * Z)) (batch_size : nat)
  : Prop :=
  match DataLoader (fst (preprocess_dataset tokenizer vocab dataset)) batch_size with
  | None => True
  | Some batches =>
      Forall (fun b : batch => Forall (fun v => (1 <= v)%nat) (snd (fst b)))
             batches
  end.

(** The token ids of a padded batch as a rank-2 array (N, L). *)
Definition array2 (rows : list (list nat)) : NDArray2 nat :=
  {| shape2 := (length rows, max_len rows);
     get2 := fun j t => nth t (nth j rows []) O |}.

(** [mx.nd.transpose] of a rank-2 array. *)
Definition transpose {A : Type} (x : NDArray2 A) : NDArray2 A :=
  let '(n, l) := shape2 x in
  {| shape2 := (l, n); get2 := fun t j => get2 x j t |}.

End Data.

(** ** The length-bucketed sampler *)

Module Sampler.

Import NDArray Data.
Local Open Scope nat_scope.

Section FixedBucketSampler.

(** The process-wide random generator and the library's in-place shuffle,
    made explicit: a shuffle consumes a generator state and returns the
    next one. *)
Variable rng : Type.
Variable shuffle : forall A : Type, list A -> rng -> list A * rng.

(** The specification leaves open how the bucket keys are derived from the
    lengths and how the batch size is scaled with the bucket key: both are
    parameters.  [bucket_scheme lengths num_buckets] gives the ascending
    keys; [scale batch_size ratio max_key key] the scaled batch size. *)
Variable bucket_scheme : list nat -> nat -> list nat.
Variable scale : nat -> Q -> nat -> nat -> nat.

(** A computation that draws from the generator. *)
Definition Rand (A : Type) : Type := rng -> A * rng.

Definition ret {A : Type} (a : A) : Rand A := fun g => (a, g).

Definition rbind {A B : Type} (m : Rand A) (k : A -> Rand B) : Rand B :=
  fun g => let '(a, g') := m g in k a g'.

Fixpoint rmapM {A B : Type} (f : A -> Rand B) (l : list A) : Rand (list B) :=
  match l with
  | [] => ret []
  | a :: l' => rbind (f a) (fun b => rbind (rmapM f l') (fun bs => ret (b :: bs)))
  end.

(** The smallest bucket whose key is at least [len]; a length above every
    key goes to the last bucket. *)
Fixpoint bucket_of (keys : list nat) (len : nat) : nat :=
  match keys with
  | [] => O
  | k :: ks =>
      match ks with
      | [] => O
      | _ :: _ => if len <=? k then O else S (bucket_of ks len)
      end
  end.

(** The indices of the examples of bucket [b], in ascending order. *)
Definition members (keys lengths : list nat) (b : nat) : list nat :=
  filter (fun i => bucket_of keys (nth i lengths O) =? b)
         (seq 0 (length lengths)).

(** The sampler object: one entry per bucket. *)
Record sampler : Type := mkSampler {
  bucket_keys : list nat;
  bucket_sample_ids : list (list nat);
  bucket_batch_sizes : list nat;
  do_shuffle : bool
}.

(** Modelled from the spec: [nlp.data.sampler.FixedBucketSampler] is
    library code, not part of the repository.  Steps 1 to 3 of the
    specification's algorithm: the keys, the assignment of every example to
    its bucket, and the batch size of every bucket, bounded below by 1.
    [num_buckets < 1] or [batch_size < 1] is a configuration error.  The
    lengths are positive integers: an example of length 0 is a data error
    that the sampler rejects before any batch is produced. *)
Definition FixedBucketSampler (lengths : list nat) (batch_size num_buckets : nat)
  (ratio : Q) (shuffle_flag : bool) : option sampler :=
  if (num_buckets <? 1) || (batch_size <? 1) then None
  else if existsb (fun len => len <? 1) lengths then None
  else
    let keys := bucket_scheme lengths num_buckets in
    let max_key := list_max keys in
    Some {| bucket_keys := keys;
            bucket_sample_ids :=
              map (members keys lengths) (seq 0 (length keys));
            bucket_batch_sizes :=
              map (fun key => Nat.max 1 (scale batch_size ratio max_key key))
                  keys;
            do_shuffle := shuffle_flag |}.

(** Step 4: the members of one bucket, shuffled on demand, cut into
    consecutive chunks of the bucket's batch size. *)
Definition bucket_batches (flag : bool) (b : list nat * nat)
  : Rand (list (list nat)) :=
  let '(sample_ids, bucket_batch_size) := b in
  rbind (if flag then shuffle nat sample_ids else ret sample_ids)
        (fun ids => ret (chunks bucket_batch_size ids)).

(** Modelled from the spec: one pass over the sampler (steps 4 and 5): the
    batches of all buckets, and with [shuffle] a final shuffle of the list
    of batches. *)
Definition iterate (s : sampler) : Rand (list (list nat)) :=
  rbind (rmapM (bucket_batches (do_shuffle s))
               (combine (bucket_sample_ids s) (bucket_batch_sizes s)))
        (fun per_bucket =>
           let batches := concat per_bucket in
           if do_shuffle s then shuffle (list nat) batches else ret batches).

(** Two passes over the same sampler, one after the other. *)
Definition two_epochs (s : sampler)
  : Rand (list (list nat) * list (list nat)) :=
  rbind (iterate s) (fun first =>
  rbind (iterate s) (fun second => ret (first, second))).

End FixedBucketSampler.

(** The integer lengths that the sampler reads from the float lengths of
    [preprocess_dataset]. *)
Definition int_lengths (lengths : list Q) : list nat :=
  map (fun q => Z.to_nat (Qfloor q)) lengths.

(** Keys of constant width, the scheme that gives the keys printed by
    [batch_sampler.stats()] in the notebook. *)
Definition const_width_keys (lengths : list nat) (num_buckets : nat) : list nat :=
  let max_length := list_max lengths in
  let min_length := fold_right Nat.min max_length lengths in
  let bucket_width := Nat.max ((max_length - min_length) / num_buckets) 1 in
  nodup Nat.eq_dec
    (rev (map (fun i => Nat.max (max_length - i * bucket_width) min_length)
              (seq 0 num_buckets))).

(** The scaling that gives the batch sizes printed by
    [batch_sampler.stats()] in the notebook. *)
Definition stats_scale (batch_size : nat) (ratio : Q) (max_key key : nat) : nat :=
  Nat.max
    (Z.to_nat (Qfloor (float_of_nat max_key / float_of_nat key * ratio
                       * float_of_nat batch_size)))
    batch_size.

End Sampler.

(** ** Evaluation and inference *)

Module Evaluate.

Import NDArray Data.
Local Open Scope Q_scope.

(** [x > y] on finite floats. *)
Definition Qgtb (x y : Q) : bool := negb (Qle_bool x y).

(** [output > 0.5] on one entry: 1.0 where the entry is above 0.5, else
    0.0; a NaN compares false. *)
Definition pred_entry (o : option Q) : Q :=
  match o with
  | Some x => if Qgtb x (1 # 2) then 1 else 0
  | None => 0
  end.

(** [pred = (output > 0.5).reshape(-1)]: the comparison on every row of the
    (N, 1) output, as a vector. *)
Definition pred (output : NDArray2 (option Q)) : list Q :=
  let '(n, _) := shape2 output in
  map (fun j => pred_entry (get2 output j O)) (seq 0 n).

(** [(pred == label).sum()]: the number of positions where both agree. *)
Definition correct_num (p label : list Q) : nat :=
  length (filter (fun pl => Qeq_bool (fst pl) (snd pl)) (combine p label)).

Definition Qsum (l : list Q) : Q := fold_right Qplus 0 l.

(** The running totals of [evaluate]. *)
Record totals : Type := mkTotals {
  total_L : Q;
  total_sample_num : nat;
  total_correct_num : nat
}.

Section Evaluate.

(** The network, and the library's [gluon.loss.SigmoidBCELoss], which gives
    one loss value per example from the outputs and the labels. *)
Variable net : NDArray2 nat -> list nat -> option (NDArray2 (option Q)).
Variable SigmoidBCELoss : NDArray2 (option Q) -> list Q -> list Q.

(** The body of the loop of [evaluate] for one batch. *)
Definition evaluate_step (acc : totals) (b : batch) : option totals :=
  let '((data, valid_length), label) := b in
  let data := transpose (array2 data) in
  output <- net data valid_length ;;
  let L := SigmoidBCELoss output label in
  let p := pred output in
  if (length p =? length label)%nat then
    Some {| total_L := total_L acc + Qsum L;
            total_sample_num := (total_sample_num acc + length label)%nat;
            total_correct_num :=
              (total_correct_num acc + correct_num p label)%nat |}
  else None.

Fixpoint evaluate_loop (acc : totals) (dataloader : list batch) : option totals :=
  match dataloader with
  | [] => Some acc
  | b :: rest => acc' <- evaluate_step acc b ;; evaluate_loop acc' rest
  end.

(** [evaluate]: the average loss and the accuracy; dividing by a sample
    count of zero raises. *)
Definition evaluate (dataloader : list batch) : option (Q * Q) :=
  final <- evaluate_loop {| total_L := 0; total_sample_num := O;
                            total_correct_num := O |} dataloader ;;
  if (total_sample_num final =? 0)%nat then None
  else
    let avg_L := total_L final / float_of_nat (total_sample_num final) in
    let acc := float_of_nat (total_correct_num final)
               / float_of_nat (total_sample_num final) in
    Some (avg_L, acc).

End Evaluate.

End Evaluate.

Module Inference.

Import NDArray Data.
Local Open Scope R_scope.

(** The logistic function. *)
Definition sigmoid (x : R) : R := 1 / (1 + exp (- x)).

(** [NDArray.sigmoid()] on one entry: a NaN stays a NaN. *)
Definition sigmoid_entry (x : option Q) : option R :=
  match x with
  | Some q => Some (sigmoid (Q2R q))
  | None => None
  end.

(** [mx.nd.reshape(mx.nd.array(ids), shape=(-1, 1))]: one column. *)
Definition column (ids : list nat) : NDArray2 nat :=
  {| shape2 := (length ids, 1%nat);
     get2 := fun t _ => nth t ids O |}.

Section Res.

Variable tokenizer : string -> list string.
Variable vocab : string -> nat.
Variable net : NDArray2 nat -> list nat -> option (NDArray2 (option Q)).

(** The logits of the inference cell, before [.sigmoid()]: the valid length
    handed to the network is the literal [[4]]. *)
Definition res_logits (test_sentence : string) : option (NDArray2 (option Q)) :=
  net (column (vocab_getitem vocab (tokenizer test_sentence))) [4%nat].

(** [res[0]]: the probability printed by the cell. *)
Definition res (test_sentence : string) : option (option R) :=
  out <- res_logits test_sentence ;;
  Some (sigmoid_entry (get2 out O O)).

(** The same cell with the number of tokens as the valid length, which is
    what the batches of the training and test loaders carry. *)
Definition res_with_token_count (test_sentence : string)
  : option (NDArray2 (option Q)) :=
  let ids := vocab_getitem vocab (tokenizer test_sentence) in
  net (column ids) [length ids].

End Res.

End Inference.

(** ** Concrete collaborators

    Small stand-ins for the external collaborators, on which the
    definitions above can be run: a tokenizer that splits at spaces, a
    vocabulary that indexes a token by its number of characters, an
    embedding with one channel holding the token index, an encoder that
    leaves the features alone, a dense layer with weight 1 and bias 0, and
    a generator whose shuffle rotates the list. *)

Module Toy.

Import NDArray Data.
Local Open Scope Q_scope.

Definition is_empty (s : string) : bool :=
  match s with
  | EmptyString => true
  | String _ _ => false
  end.

Definition flush (cur : string) (rest : list string) : list string :=
  if is_empty cur then rest else cur :: rest.

Fixpoint split_spaces (cur s : string) : list string :=
  match s with
  | EmptyString => flush cur []
  | String c s' =>
      if Ascii.eqb c " "%char
      then flush cur (split_spaces EmptyString s')
      else split_spaces (cur ++ String c EmptyString) s'
  end.

Definition tokenizer (s : string) : list string := split_spaces EmptyString s.

Definition vocab (token : string) : nat := String.length token.

Definition embedding (ids : NDArray2 nat) : NDArray3 :=
  let '(T, N) := shape2 ids in
  {| shape3 := (T, N, 1%nat);
     get3 := fun t j _ => float_of_nat (get2 ids t j) |}.

Definition encoder (x : NDArray3) : NDArray3 := x.

Definition weight (c : nat) : Q := 1.

Definition bias : Q := 0.

Definition net : NDArray2 nat -> list nat -> option (NDArray2 (option Q)) :=
  SentimentNet.hybrid_forward embedding encoder weight bias.

(** A network whose logit is a quarter of the mean token index. *)
Definition quarter_net : NDArray2 nat -> list nat -> option (NDArray2 (option Q)) :=
  SentimentNet.hybrid_forward embedding encoder (fun _ => 1 # 4) 0.

Definition no_loss (output : NDArray2 (option Q)) (label : list Q) : list Q :=
  map (fun _ => 0) label.

(** The generator state is a counter; a shuffle rotates the list by the
    counter and advances it. *)
Definition rotate {A : Type} (l : list A) (g : nat) : list A * nat :=
  let k := (g mod Nat.max 1 (length l))%nat in
  (skipn k l ++ firstn k l, S g).

(** An example tensor of shape (3, 2, 2), its valid lengths, and a copy
    whose padded positions hold other values. *)
Definition F_example : NDArray3 :=
  of_list3 3 2 2 [[[1; 2]; [3; 4]];
                  [[5; 6]; [7; 8]];
                  [[9; 10]; [11; 12]]].

Definition F_contaminated : NDArray3 :=
  of_list3 3 2 2 [[[1; 2]; [3; 4]];
                  [[5; 6]; [100; 200]];
                  [[-7; 77]; [300; 400]]].

Definition vl_example : list nat := [2%nat; 1%nat].

(** A dataset with a review that has no token, one with a single short
    review, and the second test sentence of the notebook. *)
Definition empty_review : list (string * Z) :=
  [(EmptyString, 3%Z); ("good film"%string, 8%Z)].

Definition short_review : list (string * Z) := [("a"%string, 8%Z)].

Definition test_sentence : string :=
  "This movie clearly lacks originality. The direction was unfocused and the acting was terrible."%string.

(** The sampler built from seven lengths with two buckets and batch size
    2. *)
Definition example_lengths : list nat :=
  [3; 9; 4; 8; 3; 10; 2]%nat.

Definition example_sampler : Sampler.sampler :=
  {| Sampler.bucket_keys := [6; 10]%nat;
     Sampler.bucket_sample_ids := [[0; 2; 4; 6]; [1; 3; 5]]%nat;
     Sampler.bucket_batch_sizes := [2; 2]%nat;
     Sampler.do_shuffle := false |}.

End Toy.

(** ** The rest of the notebook: hyperparameters, loaders, training,
    the printed verdict *)

Module Hyperparameters.

Definition dropout : Q := 0.
Definition learning_rate : Q := 5 # 1000.
Definition batch_size : nat := 32.
Definition bucket_num : nat := 10.
Definition bucket_ratio : Q := 2 # 10.
Definition grad_clip : option Q := None.
Definition log_interval : nat := 100.

End Hyperparameters.

Module Loader.

Import NDArray Data Sampler.

(** The examples that a batch holds: every padded row cut back to its
    valid length, with its label. *)
Definition batch_examples (b : batch) : list (list nat * Q) :=
  let '((data, valid_length), label) := b in
  combine (map (fun rv => firstn (snd rv) (fst rv)) (combine data valid_length))
          label.

(** A dataset as the batches carry it: the labels as floats. *)
Definition as_examples (dataset : list (list nat * Z)) : list (list nat * Q) :=
  map (fun x => (fst x, inject_Z (snd x))) dataset.

(** The default of an index lookup that cannot miss. *)
Definition no_sample : list nat * Z := ([], 0%Z).

(** Column [j] of a feature tensor as a batch of one example. *)
Definition column3 (F : NDArray3) (j : nat) : NDArray3 :=
  let '(T, _, C) := shape3 F in
  {| shape3 := (T, 1%nat, C); get3 := fun t _ c => get3 F t j c |}.

Section GetDataloader.

Variable rng : Type.
Variable shuffle : forall A : Type, list A -> rng -> list A * rng.
Variable bucket_scheme : list nat -> nat -> list nat.
Variable scale : nat -> Q -> nat -> nat -> nat.

(** The globals that [get_dataloader] reads. *)
Variable train_dataset test_dataset : list (list nat * Z).
Variable train_data_lengths : list Q.

(** One pass over [train_dataloader]: the index groups of the sampler, and
    for each group the assembled batch. *)
Definition train_batches (batch_sampler : sampler)
  : rng -> option (list batch) * rng :=
  fun g =>
    let '(groups, g') := iterate rng shuffle batch_sampler g in
    (SampledDataLoader train_dataset groups, g').

(** [get_dataloader]: the training loader is given by its batch sampler
    (built with [shuffle=True]); the test loader by the batches of its
    pass, which is sequential with the fixed batch size. *)
Definition get_dataloader : option (sampler * option (list batch)) :=
  batch_sampler <- FixedBucketSampler bucket_scheme scale
                     (int_lengths train_data_lengths)
                     Hyperparameters.batch_size Hyperparameters.bucket_num
                     Hyperparameters.bucket_ratio true ;;
  Some (batch_sampler, DataLoader test_dataset Hyperparameters.batch_size).

End GetDataloader.

End Loader.

Module Train.

Import NDArray Data Sampler Loader.
Local Open Scope Q_scope.

(** Division of a float by a count. *)
Definition fdivo (x : option Q) (d : nat) : option Q :=
  match x with
  | Some q => fdiv q d
  | None => None
  end.

(** The statistics that [train] keeps. *)
Record counters : Type := mkCounters {
  epoch_L : option Q;
  epoch_sent_num : nat;
  epoch_wc : nat;
  log_interval_wc : nat;
  log_interval_sent_num : nat;
  log_interval_L : option Q
}.

(** A line printed every [log_interval] batches.  The elapsed time and the
    throughput, which divide by the wall clock, are left out; [line_wc] is
    the word count that the throughput is computed from. *)
Record log_line : Type := mkLogLine {
  line_epoch : nat;
  line_batch : nat;
  line_batches : nat;
  line_avg_loss : option Q;
  line_wc : nat
}.

(** The line printed at the end of an epoch, without the throughput. *)
Record epoch_line : Type := mkEpochLine {
  report_epoch : nat;
  train_avg_loss : option Q;
  test_acc : Q;
  test_avg_L : Q
}.

Section Train.

(** The parameters of the network, the network under given parameters, the
    library's loss, and the update of the parameters by one batch
    ([L.backward()], the optional gradient clipping and
    [trainer.step(1)]). *)
Variable params : Type.
Variable net : params -> NDArray2 nat -> list nat
               -> option (NDArray2 (option Q)).
Variable SigmoidBCELoss : NDArray2 (option Q) -> list Q -> list Q.
Variable trainer_step : params -> batch -> params.

Record progress : Type := mkProgress {
  net_params : params;
  count : counters;
  printed : list log_line
}.

(** [loss(output, label).mean()]: the mean of nothing is a NaN. *)
Definition loss_mean (output : NDArray2 (option Q)) (label : list Q)
  : option Q :=
  let l := SigmoidBCELoss output label in
  fdiv (Evaluate.Qsum l) (length l).

(** The body of the inner loop of [train] for batch number [i]. *)
Definition train_step (epoch num_batches i : nat) (st : progress) (b : batch)
  : option progress :=
  let '((data, length), label) := b in
  let c := count st in
  let wc := list_sum length in
  let interval_wc := (log_interval_wc c + wc)%nat in
  let total_wc := (epoch_wc c + wc)%nat in
  let interval_sent_num :=
    (log_interval_sent_num c + snd (shape2 (array2 data)))%nat in
  let total_sent_num :=
    (epoch_sent_num c + snd (shape2 (array2 data)))%nat in
  output <- net (net_params st) (transpose (array2 data)) length ;;
  let L := loss_mean output label in
  let params' := trainer_step (net_params st) b in
  let interval_L := SentimentNet.fadd (log_interval_L c) L in
  let total_L := SentimentNet.fadd (epoch_L c) L in
  if ((i + 1) mod Hyperparameters.log_interval =? 0)%nat then
    Some {| net_params := params';
            count := {| epoch_L := total_L;
                        epoch_sent_num := total_sent_num;
                        epoch_wc := total_wc;
                        log_interval_wc := O;
                        log_interval_sent_num := O;
                        log_interval_L := Some 0 |};
            printed := printed st ++
              [{| line_epoch := epoch;
                  line_batch := (i + 1)%nat;
                  line_batches := num_batches;
                  line_avg_loss := fdivo interval_L interval_sent_num;
                  line_wc := interval_wc |}] |}
  else
    Some {| net_params := params';
            count := {| epoch_L := total_L;
                        epoch_sent_num := total_sent_num;
                        epoch_wc := total_wc;
                        log_interval_wc := interval_wc;
                        log_interval_sent_num := interval_sent_num;
                        log_interval_L := interval_L |};
            printed := printed st |}.

(** The inner loop, from batch number [i] on. *)
Fixpoint train_loop (epoch num_batches i : nat) (st : progress)
  (batches : list batch) : option progress :=
  match batches with
  | [] => Some st
  | b :: rest =>
      st' <- train_step epoch num_batches i st b ;;
      train_loop epoch num_batches (S i) st' rest
  end.

(** The statistics at the start of an epoch. *)
Definition start_of_epoch (p : params) : progress :=
  {| net_params := p;
     count := {| epoch_L := Some 0; epoch_sent_num := O; epoch_wc := O;
                 log_interval_wc := O; log_interval_sent_num := O;
                 log_interval_L := Some 0 |};
     printed := [] |}.

Variable rng : Type.
Variable shuffle : forall A : Type, list A -> rng -> list A * rng.

(** The globals that [train] reads. *)
Variable batch_sampler : sampler.
Variable train_dataset : list (list nat * Z).
Variable test_dataloader : option (list batch).

(** The end of an epoch: the evaluation on the test loader and the printed
    line.  With no training batch at all the average [epoch_L /
    epoch_sent_num] divides the float 0.0 by the integer 0, which raises. *)
Definition end_of_epoch (epoch : nat) (batches : list batch) (st : progress)
  : option epoch_line :=
  test_batches <- test_dataloader ;;
  result <- Evaluate.evaluate (net (net_params st)) SigmoidBCELoss
                              test_batches ;;
  match batches with
  | [] => None
  | _ :: _ =>
      Some {| report_epoch := epoch;
              train_avg_loss :=
                fdivo (epoch_L (count st)) (epoch_sent_num (count st));
              test_acc := snd result;
              test_avg_L := fst result |}
  end.

(** One iteration of the outer loop of [train]. *)
Definition train_epoch (epoch : nat) (p : params) (g : rng)
  : option (params * list log_line * epoch_line) * rng :=
  let '(batches, g') := train_batches rng shuffle train_dataset batch_sampler g in
  (batches <- batches ;;
   st <- train_loop epoch (length batches) O (start_of_epoch p) batches ;;
   line <- end_of_epoch epoch batches st ;;
   Some (net_params st, printed st, line),
   g').

(** [train]: the epochs from [epoch] on; what is returned is the trained
    parameters and everything that was printed. *)
Fixpoint train_from (epochs epoch : nat) (p : params) (g : rng)
  : option (params * list (list log_line * epoch_line)) * rng :=
  match epochs with
  | O => (Some (p, []), g)
  | S epochs' =>
      match train_epoch epoch p g with
      | (None, g') => (None, g')
      | (Some (p', lines, line), g') =>
          match train_from epochs' (S epoch) p' g' with
          | (None, g'') => (None, g'')
          | (Some (p'', rest), g'') => (Some (p'', (lines, line) :: rest), g'')
          end
      end
  end.

Definition train (epochs : nat) (p : params) (g : rng)
  : option (params * list (list log_line * epoch_line)) * rng :=
  train_from epochs O p g.

End Train.

Arguments net_params {params} _.
Arguments count {params} _.
Arguments printed {params} _.

(** The words printed so far plus the words of the running interval. *)
Definition words_accounted {params : Type} (st : progress params) : nat :=
  (list_sum (map line_wc (printed st)) + log_interval_wc (count st))%nat.

End Train.

Module Cell.

Import NDArray Data Inference.
Local Open Scope R_scope.

(** [if res[0] > .5: print('Positive') else: print('Negative')]; a NaN
    compares false. *)
Definition verdict (r : option R) : string :=
  match r with
  | Some p => if Rlt_dec (1 / 2) p then "Positive"%string else "Negative"%string
  | None => "Negative"%string
  end.

(** The inference cell: what it prints as the sentiment. *)
Definition inference_cell (tokenizer : string -> list string)
  (vocab : string -> nat)
  (net : NDArray2 nat -> list nat -> option (NDArray2 (option Q)))
  (test_sentence : string) : option string :=
  r <- res tokenizer vocab net test_sentence ;;
  Some (verdict r).

End Cell.

(** ** Counting correct predictions *)

Module Accuracy.

Import NDArray Data Evaluate.

(** The number of examples of a batch that the evaluation pass counts as
    correct: the positions where the prediction computed from the output of
    the network equals the label. *)
Definition batch_correct
  (net : NDArray2 nat -> list nat -> option (NDArray2 (option Q)))
  (b : batch) : nat :=
  let '((data, valid_length), label) := b in
  match net (transpose (array2 data)) valid_length with
  | Some output => correct_num (pred output) label
  | None => O
  end.

End Accuracy.

(** A small training set-up to run [train] on: three examples in three
    buckets, one test example, and an update that counts the batches. *)

Module ToyTrain.

Import Data Train.

Definition train_set : list (list nat * Z) :=
  [([7; 8; 9]%nat, 1%Z); ([4]%nat, 0%Z); ([5; 6]%nat, 1%Z)].

Definition batch_sampler : Sampler.sampler :=
  {| Sampler.bucket_keys := [1; 2; 3]%nat;
     Sampler.bucket_sample_ids := [[1]; [2]; [0]]%nat;
     Sampler.bucket_batch_sizes := [32; 32; 32]%nat;
     Sampler.do_shuffle := true |}.

Definition test_loader : option (list batch) :=
  DataLoader [([4; 4]%nat, 1%Z)] 32.

Definition count_step (p : nat) (b : batch) : nat := S p.

(** Two batches, of one and of three examples, and the statistics after
    them. *)
Definition two_batches : list batch :=
  [(([[1; 2; 3; 4]]%nat, [4]%nat), [inject_Z 1]);
   (([[7; 8; 9]; [4; 0; 0]; [5; 6; 0]]%nat, [3; 1; 2]%nat),
    [inject_Z 1; inject_Z 0; inject_Z 1])].

Definition after_two_batches : progress unit :=
  {| net_params := tt;
     count := {| epoch_L := Some (0 # 3);
                 epoch_sent_num := 7; epoch_wc := 10;
                 log_interval_wc := 10; log_interval_sent_num := 7;
                 log_interval_L := Some (0 # 3) |};
     printed := [] |}.

(** The end-of-epoch line of every epoch of the run. *)
Definition summary (epoch : nat) : epoch_line :=
  {| report_epoch := epoch;
     train_avg_loss := Some (0 # 6);
     test_acc := 1;
     test_avg_L := 0 |}.

End ToyTrain.

(** * Properties *)

(** ** Sums over the time axis *)

Module SumFacts.

Import NDArray.
Local Open Scope Q_scope.

Lemma sum_upto_ext_eq (n : nat) (f g : nat -> Q) :
  (forall t, (t < n)%nat -> f t = g t) -> sum_upto n f = sum_upto n g.
Proof.
  induction n as [|n IH]; intros Hfg; simpl.
  - reflexivity.
  - rewrite IH by (intros t Ht; apply Hfg; lia).
    rewrite (Hfg n) by lia. reflexivity.
Qed.

Lemma sum_upto_ext (n : nat) (f g : nat -> Q) :
  (forall t, (t < n)%nat -> f t == g t) -> sum_upto n f == sum_upto n g.
Proof.
  induction n as [|n IH]; intros Hfg; simpl.
  - reflexivity.
  - rewrite IH by (intros t Ht; apply Hfg; lia).
    rewrite (Hfg n) by lia. reflexivity.
Qed.

Lemma sum_upto_zero (n : nat) (f : nat -> Q) :
  (forall t, (t < n)%nat -> f t == 0) -> sum_upto n f == 0.
Proof.
  induction n as [|n IH]; intros Hf; simpl.
  - reflexivity.
  - rewrite IH by (intros t Ht; apply Hf; lia).
    rewrite (Hf n) by lia. ring.
Qed.

Lemma sum_upto_scale (c : Q) (n : nat) (f : nat -> Q) :
  sum_upto n (fun t => c * f t) == c * sum_upto n f.
Proof.
  induction n as [|n IH]; simpl.
  - ring.
  - rewrite IH. ring.
Qed.

(** Masking at [v] and summing the whole axis is summing the positions
    below [v]. *)
Lemma sum_upto_mask (T v : nat) (f : nat -> Q) :
  sum_upto T (fun t => if (t <? v)%nat then f t else 0)
  == sum_upto (Nat.min v T) f.
Proof.
  induction T as [|T IH].
  - rewrite Nat.min_0_r. reflexivity.
  - simpl sum_upto at 1. rewrite IH.
    destruct (Nat.ltb_spec T v) as [Hlt | Hge].
    + replace (Nat.min v (S T)) with (S (Nat.min v T)) by lia.
      simpl. replace (Nat.min v T) with T by lia. reflexivity.
    + replace (Nat.min v (S T)) with (Nat.min v T) by lia. ring.
Qed.

Lemma float_of_nat_pos (n : nat) : (1 <= n)%nat -> 0 < float_of_nat n.
Proof.
  intros Hn. unfold float_of_nat, Qlt. simpl. lia.
Qed.

Lemma float_of_nat_nonzero (n : nat) : (1 <= n)%nat -> ~ float_of_nat n == 0.
Proof.
  intros Hn H0. pose proof (float_of_nat_pos n Hn) as Hpos.
  rewrite H0 in Hpos. apply (Qlt_irrefl 0). exact Hpos.
Qed.

End SumFacts.

(** ** The masked mean-pooling layer *)

Module MeanPoolingFacts.

Import NDArray MeanPoolingLayer SumFacts Toy.
Local Open Scope Q_scope.

Lemma broadcast_index_in (d i : nat) : (i < d)%nat -> broadcast_index d i = i.
Proof.
  intros Hi. unfold broadcast_index.
  destruct (Nat.eqb_spec d 1); [lia | reflexivity].
Qed.

(** The layer succeeds whenever there is one valid length per column, and
    entry (j, c) of its result is the masked sum of column [j], channel [c],
    divided by the valid length of [j]. *)
Lemma hybrid_forward_entries (F : NDArray3) (vl : list nat) (T N C : nat) :
  shape3 F = (T, N, C) -> length vl = N ->
  exists P, hybrid_forward F vl = Some P /\ shape2 P = (N, C) /\
    forall j c, (j < N)%nat -> (c < C)%nat ->
      get2 P j c =
      fdiv (sum_upto T (fun t => if (t <? nth j vl O)%nat
                                 then get3 F t j c else 0))
           (nth j vl O).
Proof.
  intros Hshape Hlen. subst N.
  unfold hybrid_forward, SequenceMask. rewrite Hshape, Nat.eqb_refl.
  cbn [bind]. unfold broadcast_div, sum_axis0, expand_dims1.
  cbn [shape3 shape2 get2 get3].
  replace (broadcastable (length vl) (length vl) && broadcastable C 1)
    with true.
  2:{ unfold broadcastable. rewrite Nat.eqb_refl. cbn.
      now rewrite orb_true_r. }
  cbn [bind]. eexists. split; [reflexivity|]. split.
  - cbn [shape2]. unfold broadcast_dim.
    destruct (Nat.eqb_spec (length vl) 1), (Nat.eqb_spec C 1); congruence.
  - intros j c Hj Hc. cbn [get2].
    rewrite !broadcast_index_in by assumption.
    unfold broadcast_index. cbn. reflexivity.
Qed.

Lemma nth_Forall_ge1 (vl : list nat) (j : nat) :
  Forall (fun v => (1 <= v)%nat) vl -> (j < length vl)%nat ->
  (1 <= nth j vl O)%nat.
Proof.
  intros Hall Hj. rewrite Forall_forall in Hall.
  apply Hall, nth_In, Hj.
Qed.

(** With a divisor of at least 1 the division of the goal is a finite
    value. *)
Ltac fdiv_defined Hv :=
  unfold fdiv;
  match type of Hv with
  | (1 <= ?v)%nat =>
      let H0 := fresh "H0" in
      destruct (Nat.eqb_spec v 0) as [H0 | _]; [lia|]
  end.

(** C2.  For a feature tensor [F] of shape (T, N, C) and valid lengths that
    are all at least 1, the layer returns an (N, C) array whose row [j] is
    [1 / valid_length[j]] times the sum of [F[t, j, :]] over the positions
    [t < valid_length[j]]; a tensor [F'] that differs from [F] only at
    positions [t >= valid_length[j]] gives the same pooled output. *)
Theorem masked_mean_pooling_correct
  (F : NDArray3) (vl : list nat) (T N C : nat) :
  shape3 F = (T, N, C) -> length vl = N ->
  Forall (fun v => (1 <= v)%nat) vl ->
  exists P, hybrid_forward F vl = Some P /\ shape2 P = (N, C) /\
    (forall j c, (j < N)%nat -> (c < C)%nat ->
       exists q, get2 P j c = Some q /\ q == pooled_spec F vl j c) /\
    (forall F', shape3 F' = (T, N, C) ->
       (forall t j c, (t < T)%nat -> (j < N)%nat -> (c < C)%nat ->
          (t < nth j vl O)%nat -> get3 F' t j c = get3 F t j c) ->
       exists P', hybrid_forward F' vl = Some P' /\ shape2 P' = (N, C) /\
         forall j c, (j < N)%nat -> (c < C)%nat -> get2 P' j c = get2 P j c).
Proof.
  intros Hshape Hlen Hge.
  destruct (hybrid_forward_entries F vl T N C Hshape Hlen)
    as (P & HP & HPshape & Hentry).
  exists P. repeat split; try assumption.
  - intros j c Hj Hc. rewrite (Hentry j c Hj Hc).
    assert (Hv : (1 <= nth j vl O)%nat)
      by (apply nth_Forall_ge1; [assumption | lia]).
    fdiv_defined Hv.
    eexists. split; [reflexivity|].
    unfold pooled_spec. rewrite Hshape. cbv zeta.
    rewrite sum_upto_mask. field. apply float_of_nat_nonzero, Hv.
  - intros F' Hshape' Hagree.
    destruct (hybrid_forward_entries F' vl T N C Hshape' Hlen)
      as (P' & HP' & HPshape' & Hentry').
    exists P'. repeat split; try assumption.
    intros j c Hj Hc. rewrite (Hentry j c Hj Hc), (Hentry' j c Hj Hc).
    f_equal. apply sum_upto_ext_eq. intros t Ht.
    destruct (Nat.ltb_spec t (nth j vl O)) as [Hlt | _]; [|reflexivity].
    apply Hagree; assumption.
Qed.

Lemma masked_mean_pooling_correct_witness :
  exists P, hybrid_forward F_example vl_example = Some P /\
    shape2 P = (2%nat, 2%nat) /\
    (forall j c, (j < 2)%nat -> (c < 2)%nat ->
       exists q, get2 P j c = Some q /\
                 q == pooled_spec F_example vl_example j c) /\
    (forall F', shape3 F' = (3%nat, 2%nat, 2%nat) ->
       (forall t j c, (t < 3)%nat -> (j < 2)%nat -> (c < 2)%nat ->
          (t < nth j vl_example O)%nat ->
          get3 F' t j c = get3 F_example t j c) ->
       exists P', hybrid_forward F' vl_example = Some P' /\
         shape2 P' = (2%nat, 2%nat) /\
         forall j c, (j < 2)%nat -> (c < 2)%nat -> get2 P' j c = get2 P j c).
Proof.
  apply (masked_mean_pooling_correct F_example vl_example 3 2 2).
  - reflexivity.
  - reflexivity.
  - repeat constructor.
Defined.

(** The pooled values of the example, and of its contaminated copy. *)
Example pooling_example :
  option_map to_list2 (hybrid_forward F_example vl_example)
  = Some [[Some ((1 + 5) / 2); Some ((2 + 6) / 2)];
          [Some (3 / 1); Some (4 / 1)]]
  /\ option_map to_list2 (hybrid_forward F_contaminated vl_example)
     = option_map to_list2 (hybrid_forward F_example vl_example).
Proof. split; vm_compute; reflexivity. Qed.

(** Within the tensor the specified sum runs over exactly
    [valid_length[j]] positions. *)
Lemma pooled_spec_within (F : NDArray3) (vl : list nat) (T N C j c : nat) :
  shape3 F = (T, N, C) -> (nth j vl O <= T)%nat ->
  pooled_spec F vl j c
  = (1 / float_of_nat (nth j vl O))
    * sum_upto (nth j vl O) (fun t => get3 F t j c).
Proof.
  intros Hshape Hle. unfold pooled_spec. rewrite Hshape. cbv zeta.
  rewrite Nat.min_l by assumption. reflexivity.
Qed.

(** C6.  Pooling is linear in the valid region: when every valid position
    of [F'] holds [c] times the feature of [F] (the padded positions may
    hold anything), and all valid lengths are at least 1, every pooled
    entry of [F'] is [c] times the pooled entry of [F]. *)
Theorem masked_mean_pooling_linear
  (c : Q) (F F' : NDArray3) (vl : list nat) (T N C : nat) :
  shape3 F = (T, N, C) -> shape3 F' = (T, N, C) -> length vl = N ->
  Forall (fun v => (1 <= v)%nat) vl ->
  (forall t j k, (t < T)%nat -> (j < N)%nat -> (k < C)%nat ->
     (t < nth j vl O)%nat -> get3 F' t j k == c * get3 F t j k) ->
  exists P P', hybrid_forward F vl = Some P /\
    hybrid_forward F' vl = Some P' /\
    shape2 P = (N, C) /\ shape2 P' = (N, C) /\
    forall j k, (j < N)%nat -> (k < C)%nat ->
      exists q q', get2 P j k = Some q /\ get2 P' j k = Some q' /\
                   q' == c * q.
Proof.
  intros Hshape Hshape' Hlen Hge Hscaled.
  destruct (hybrid_forward_entries F vl T N C Hshape Hlen)
    as (P & HP & HPshape & Hentry).
  destruct (hybrid_forward_entries F' vl T N C Hshape' Hlen)
    as (P' & HP' & HPshape' & Hentry').
  exists P, P'. repeat split; try assumption.
  intros j k Hj Hk. rewrite (Hentry j k Hj Hk), (Hentry' j k Hj Hk).
  assert (Hv : (1 <= nth j vl O)%nat)
    by (apply nth_Forall_ge1; [assumption | lia]).
  fdiv_defined Hv.
  do 2 eexists. split; [reflexivity|]. split; [reflexivity|].
  assert (Hsum :
    sum_upto T (fun t => if (t <? nth j vl O)%nat then get3 F' t j k else 0)
    == c * sum_upto T (fun t => if (t <? nth j vl O)%nat
                                then get3 F t j k else 0)).
  { rewrite <- sum_upto_scale. apply sum_upto_ext. intros t Ht.
    destruct (Nat.ltb_spec t (nth j vl O)) as [Hlt | _].
    - apply Hscaled; assumption.
    - ring. }
  rewrite Hsum. field. apply float_of_nat_nonzero, Hv.
Qed.

Lemma masked_mean_pooling_linear_witness :
  exists P P', hybrid_forward F_example vl_example = Some P /\
    hybrid_forward (smul (3 # 2) F_example) vl_example = Some P' /\
    shape2 P = (2%nat, 2%nat) /\ shape2 P' = (2%nat, 2%nat) /\
    forall j k, (j < 2)%nat -> (k < 2)%nat ->
      exists q q', get2 P j k = Some q /\ get2 P' j k = Some q' /\
                   q' == (3 # 2) * q.
Proof.
  apply (masked_mean_pooling_linear (3 # 2) F_example
           (smul (3 # 2) F_example) vl_example 3 2 2).
  - reflexivity.
  - reflexivity.
  - reflexivity.
  - repeat constructor.
  - intros t j k _ _ _ _. reflexivity.
Defined.

(** Where the valid length is 0 the layer still returns, and every pooled
    entry of that example is the result of a division by zero. *)
Lemma pooled_entry_undefined_at_zero
  (F : NDArray3) (vl : list nat) (T N C j : nat) :
  shape3 F = (T, N, C) -> length vl = N -> (j < N)%nat -> nth j vl O = O ->
  exists P, hybrid_forward F vl = Some P /\ shape2 P = (N, C) /\
    forall c, (c < C)%nat -> get2 P j c = None.
Proof.
  intros Hshape Hlen Hj Hzero.
  destruct (hybrid_forward_entries F vl T N C Hshape Hlen)
    as (P & HP & HPshape & Hentry).
  exists P. split; [assumption|]. split; [assumption|].
  intros c Hc. rewrite (Hentry j c Hj Hc), Hzero. reflexivity.
Qed.

End MeanPoolingFacts.

(** ** Preprocessing *)

Module PreprocessFacts.

Import NDArray Data.

Section Preprocess.

Variable tokenizer : string -> list string.
Variable vocab : string -> nat.

Lemma preprocess_dataset_fst (dataset : list (string * Z)) :
  fst (preprocess_dataset tokenizer vocab dataset)
  = map (preprocess tokenizer vocab) dataset.
Proof. reflexivity. Qed.

Lemma preprocess_dataset_snd (dataset : list (string * Z)) :
  snd (preprocess_dataset tokenizer vocab dataset)
  = map get_length (fst (preprocess_dataset tokenizer vocab dataset)).
Proof. reflexivity. Qed.

Lemma float_of_nat_floor (n : nat) : Z.to_nat (Qfloor (float_of_nat n)) = n.
Proof.
  unfold float_of_nat. rewrite Qfloor_Z. apply Nat2Z.id.
Qed.

(** C5.  The label that preprocessing gives to the [i]-th pair (text,
    rating) of a dataset is 1 exactly when the rating is strictly above 5,
    and 0 exactly when it is not. *)
Theorem preprocess_binary_label
  (dataset : list (string * Z)) (i : nat) (text : string) (rating : Z) :
  nth_error dataset i = Some (text, rating) ->
  exists data label,
    nth_error (fst (preprocess_dataset tokenizer vocab dataset)) i
    = Some (data, label) /\
    (label = 1%Z <-> (5 < rating)%Z) /\
    (label = 0%Z <-> (rating <= 5)%Z).
Proof.
  intros Hi. rewrite preprocess_dataset_fst, nth_error_map, Hi.
  cbn [option_map preprocess].
  do 2 eexists. split; [reflexivity|].
  destruct (Z.ltb_spec 5 rating) as [Hgt | Hle]; split; split;
    intros H; try reflexivity; try discriminate; try lia; assumption.
Qed.

(** C10.  The lengths dataset has one entry per preprocessed example, and
    its [i]-th entry is the token count of the [i]-th preprocessed example
    as a float; read back as an integer by the sampler it is that token
    count. *)
Theorem lengths_index_aligned (dataset : list (string * Z)) :
  let processed := fst (preprocess_dataset tokenizer vocab dataset) in
  let lengths := snd (preprocess_dataset tokenizer vocab dataset) in
  length lengths = length processed /\
  forall i,
    nth_error lengths i
    = option_map (fun x => float_of_nat (length (fst x)))
                 (nth_error processed i) /\
    nth_error (Sampler.int_lengths lengths) i
    = option_map (fun x => length (fst x)) (nth_error processed i).
Proof.
  cbv zeta. rewrite preprocess_dataset_snd.
  set (processed := fst (preprocess_dataset tokenizer vocab dataset)).
  split.
  - unfold pool_map. apply length_map.
  - intros i. unfold Sampler.int_lengths, pool_map.
    rewrite !nth_error_map.
    destruct (nth_error processed i) as [x|]; cbn [option_map].
    + unfold get_length. rewrite float_of_nat_floor. split; reflexivity.
    + split; reflexivity.
Qed.

(** Preprocessing drops nothing: the [i]-th output is the preprocessed
    [i]-th input, whatever its token count. *)
Lemma preprocess_dataset_keeps (dataset : list (string * Z)) (i : nat) :
  nth_error (fst (preprocess_dataset tokenizer vocab dataset)) i
  = option_map (preprocess tokenizer vocab) (nth_error dataset i).
Proof. rewrite preprocess_dataset_fst. apply nth_error_map. Qed.

End Preprocess.

Lemma preprocess_binary_label_witness :
  exists data label,
    nth_error (fst (preprocess_dataset Toy.tokenizer Toy.vocab
                      [("good film"%string, 8%Z); ("dull"%string, 5%Z)])) 1
    = Some (data, label) /\
    (label = 1%Z <-> (5 < 5)%Z) /\
    (label = 0%Z <-> (5 <= 5)%Z).
Proof.
  apply (preprocess_binary_label Toy.tokenizer Toy.vocab
           [("good film"%string, 8%Z); ("dull"%string, 5%Z)] 1
           "dull"%string 5%Z).
  reflexivity.
Defined.

End PreprocessFacts.

(** ** The batch assembler *)

Module BatchFacts.

Import NDArray Data.
Local Open Scope nat_scope.

Lemma list_max_In (l : list nat) : l <> [] -> In (list_max l) l.
Proof.
  induction l as [|a l IH]; intros Hne; [contradiction|].
  destruct l as [|b l].
  - left. cbn. lia.
  - change (list_max (a :: b :: l)) with (Nat.max a (list_max (b :: l))).
    destruct (Nat.max_spec a (list_max (b :: l))) as [[_ ->] | [_ ->]].
    + right. apply IH. discriminate.
    + left. reflexivity.
Qed.

Lemma list_sum_le_max (l : list nat) (m : nat) :
  Forall (fun k => k <= m) l -> list_sum l <= m * length l.
Proof.
  induction 1 as [|a l Ha _ IH]; simpl; nia.
Qed.

(** All entries lie below [m]: the sum reaches [m] per entry only when
    every entry is [m]. *)
Lemma list_sum_eq_max (l : list nat) (m : nat) :
  Forall (fun k => k <= m) l ->
  (list_sum l = m * length l <-> Forall (fun k => k = m) l).
Proof.
  induction 1 as [|a l Ha Hl IH]; simpl.
  - split; [constructor | lia].
  - pose proof (list_sum_le_max l m Hl) as Hb. split.
    + intros Heq. constructor; [nia|]. apply IH. nia.
    + intros Hall. inversion Hall as [|? ? Ha' Hl']; subst.
      apply IH in Hl'. nia.
Qed.

Lemma list_sum_repeat_const (l : list nat) (m : nat) :
  Forall (fun k => k = m) l -> list_sum l = m * length l.
Proof.
  induction 1 as [|a l Ha _ IH]; simpl; nia.
Qed.

(** What [Pad] returns: the lengths of the group, and every sequence
    extended to the largest of them. *)
Lemma Pad_some (arrs padded : list (list nat)) (lengths : list nat) :
  Pad arrs = Some (padded, lengths) ->
  arrs <> [] /\ lengths = map (@length nat) arrs /\
  padded = map (fun ele => ele ++ repeat pad_val (list_max lengths - length ele))
               arrs.
Proof.
  destruct arrs as [|a arrs]; cbn [Pad]; [discriminate|].
  intros H. injection H as <- <-. repeat split. discriminate.
Qed.

Lemma Pad_row_lengths (arrs padded : list (list nat)) (lengths : list nat) :
  Pad arrs = Some (padded, lengths) ->
  Forall (fun row => length row = list_max lengths) padded.
Proof.
  intros H. destruct (Pad_some _ _ _ H) as (_ & Hl & Hp).
  assert (Hbound : Forall (fun k => k <= list_max lengths) lengths)
    by (apply list_max_le; lia).
  rewrite Hp. apply Forall_map, Forall_forall. intros ele Hin.
  rewrite length_app, repeat_length.
  rewrite Forall_forall in Hbound.
  assert (length ele <= list_max lengths)
    by (apply Hbound; rewrite Hl; apply in_map, Hin).
  lia.
Qed.

Lemma Pad_length (arrs padded : list (list nat)) (lengths : list nat) :
  Pad arrs = Some (padded, lengths) ->
  length padded = length arrs /\ length lengths = length arrs.
Proof.
  intros H. destruct (Pad_some _ _ _ H) as (_ & Hl & Hp).
  rewrite Hp, Hl, !length_map. split; reflexivity.
Qed.

Lemma Pad_max_len (arrs padded : list (list nat)) (lengths : list nat) :
  Pad arrs = Some (padded, lengths) -> max_len padded = list_max lengths.
Proof.
  intros H. pose proof (Pad_row_lengths _ _ _ H) as Hrows.
  destruct (Pad_some _ _ _ H) as (Hne & _ & Hp).
  destruct padded as [|row rest].
  - destruct arrs; [contradiction | discriminate].
  - inversion Hrows; subst. assumption.
Qed.

Lemma Pad_size (arrs padded : list (list nat)) (lengths : list nat) :
  Pad arrs = Some (padded, lengths) ->
  padded_size padded = max_len padded * length lengths.
Proof.
  intros H. rewrite (Pad_max_len _ _ _ H).
  destruct (Pad_length _ _ _ H) as [Hp Hl]. rewrite Hl, <- Hp.
  unfold padded_size. rewrite length_concat.
  rewrite <- (length_map (@length nat) padded).
  apply list_sum_repeat_const, Forall_map, (Pad_row_lengths _ _ _ H).
Qed.

Lemma batchify_fn_some (samples : list (list nat * Z))
  (padded : list (list nat)) (valid_lengths : list nat) (labels : list Q) :
  batchify_fn samples = Some ((padded, valid_lengths), labels) ->
  Pad (map fst samples) = Some (padded, valid_lengths) /\
  labels = map inject_Z (map snd samples).
Proof.
  unfold batchify_fn. destruct (Pad (map fst samples)) as [[p l]|];
    cbn [bind]; [|discriminate].
  unfold Stack. destruct (map snd samples) as [|z zs]; cbn [bind];
    [discriminate|].
  intros H. injection H as <- <- <-. split; reflexivity.
Qed.

(** C8.  In every batch that the batch assembler produces, the time extent
    of the padded array is the largest valid length of the batch: every
    padded row has exactly that length, and the valid lengths are the
    lengths the examples had before padding. *)
Theorem batch_max_len_is_max_valid_length (samples : list (list nat * Z))
  (padded : list (list nat)) (valid_lengths : list nat) (labels : list Q) :
  batchify_fn samples = Some ((padded, valid_lengths), labels) ->
  max_len padded = list_max valid_lengths /\
  Forall (fun row => length row = list_max valid_lengths) padded /\
  valid_lengths = map (fun sample => length (fst sample)) samples.
Proof.
  intros H. destruct (batchify_fn_some _ _ _ _ H) as [HPad _].
  split; [apply (Pad_max_len _ _ _ HPad)|].
  split; [apply (Pad_row_lengths _ _ _ HPad)|].
  destruct (Pad_some _ _ _ HPad) as (_ & Hl & _).
  rewrite Hl, map_map. reflexivity.
Qed.

Lemma batch_max_len_is_max_valid_length_witness :
  max_len [[7; 8; 9]; [4; 0; 0]; [5; 6; 0]] = list_max [3; 1; 2] /\
  Forall (fun row => length row = list_max [3; 1; 2])
         [[7; 8; 9]; [4; 0; 0]; [5; 6; 0]] /\
  [3; 1; 2] = map (fun sample : list nat * Z => length (fst sample))
                  [([7; 8; 9], 1%Z); ([4], 0%Z); ([5; 6], 1%Z)].
Proof.
  apply (batch_max_len_is_max_valid_length
           [([7; 8; 9], 1%Z); ([4], 0%Z); ([5; 6], 1%Z)]
           [[7; 8; 9]; [4; 0; 0]; [5; 6; 0]] [3; 1; 2]
           [inject_Z 1; inject_Z 0; inject_Z 1]).
  reflexivity.
Defined.

(** C9.  In every batch that the batch assembler produces, the valid
    lengths add up to at most the number of elements of the padded array,
    which is [max_len] times the number of examples; the two are equal
    exactly when all examples of the batch have the same length. *)
Theorem valid_lengths_sum_le_padded_size (samples : list (list nat * Z))
  (padded : list (list nat)) (valid_lengths : list nat) (labels : list Q) :
  batchify_fn samples = Some ((padded, valid_lengths), labels) ->
  padded_size padded = max_len padded * length samples /\
  list_sum valid_lengths <= padded_size padded /\
  (list_sum valid_lengths = padded_size padded <->
   forall a b, In a valid_lengths -> In b valid_lengths -> a = b).
Proof.
  intros H. destruct (batchify_fn_some _ _ _ _ H) as [HPad _].
  pose proof (Pad_size _ _ _ HPad) as Hsize.
  pose proof (Pad_max_len _ _ _ HPad) as Hmax.
  destruct (Pad_length _ _ _ HPad) as [_ Hlen].
  rewrite length_map in Hlen.
  destruct (Pad_some _ _ _ HPad) as (Hne & Hl & _).
  assert (Hbound : Forall (fun k => k <= list_max valid_lengths) valid_lengths)
    by (apply list_max_le; lia).
  assert (Hvne : valid_lengths <> []).
  { rewrite Hl. destruct (map fst samples); [contradiction | discriminate]. }
  rewrite Hsize, Hmax. split; [congruence|].
  split; [apply list_sum_le_max, Hbound|].
  rewrite (list_sum_eq_max _ _ Hbound), Forall_forall. split.
  - intros Hall a b Ha Hb. rewrite (Hall a Ha), (Hall b Hb). reflexivity.
  - intros Hsame k Hk. apply Hsame; [assumption|].
    apply list_max_In, Hvne.
Qed.

Lemma valid_lengths_sum_le_padded_size_witness :
  padded_size [[7; 8; 9]; [4; 0; 0]; [5; 6; 0]]
  = max_len [[7; 8; 9]; [4; 0; 0]; [5; 6; 0]]
    * length [([7; 8; 9], 1%Z); ([4], 0%Z); ([5; 6], 1%Z)] /\
  list_sum [3; 1; 2] <= padded_size [[7; 8; 9]; [4; 0; 0]; [5; 6; 0]] /\
  (list_sum [3; 1; 2] = padded_size [[7; 8; 9]; [4; 0; 0]; [5; 6; 0]] <->
   forall a b, In a [3; 1; 2] -> In b [3; 1; 2] -> a = b).
Proof.
  apply (valid_lengths_sum_le_padded_size
           [([7; 8; 9], 1%Z); ([4], 0%Z); ([5; 6], 1%Z)]
           [[7; 8; 9]; [4; 0; 0]; [5; 6; 0]] [3; 1; 2]
           [inject_Z 1; inject_Z 0; inject_Z 1]).
  reflexivity.
Defined.

Lemma nth_map_in {A B : Type} (f : A -> B) (l : list A) (j : nat)
  (dA : A) (dB : B) :
  j < length l -> nth j (map f l) dB = f (nth j l dA).
Proof.
  revert j. induction l as [|a l IH]; intros [|j] Hj; cbn in *;
    try lia; [reflexivity | apply IH; lia].
Qed.

(** The assembler keeps the order of the group: row [j] of the padded
    array starts with the [j]-th sequence. *)
Lemma Pad_keeps_prefix (arrs padded : list (list nat)) (lengths : list nat)
  (j : nat) :
  Pad arrs = Some (padded, lengths) -> j < length arrs ->
  firstn (nth j lengths O) (nth j padded []) = nth j arrs [].
Proof.
  intros H Hj. destruct (Pad_some _ _ _ H) as (_ & Hl & Hp).
  set (m := list_max lengths) in Hp.
  rewrite Hp, Hl.
  rewrite (nth_map_in _ arrs j [] []) by exact Hj.
  rewrite (nth_map_in _ arrs j [] O) by exact Hj.
  rewrite firstn_app, Nat.sub_diag, firstn_all. cbn [firstn].
  apply app_nil_r.
Qed.

Lemma mapM_some {A B : Type} (f : A -> option B) (l : list A) (bs : list B) :
  mapM f l = Some bs -> Forall2 (fun a b => f a = Some b) l bs.
Proof.
  revert bs. induction l as [|a l IH]; cbn [mapM]; intros bs Hbs.
  - injection Hbs as <-. constructor.
  - destruct (f a) as [b|] eqn:Hfa; cbn [bind] in Hbs; [|discriminate].
    destruct (mapM f l) as [bs'|]; cbn [bind] in Hbs; [|discriminate].
    injection Hbs as <-. constructor; [assumption | apply IH; reflexivity].
Qed.

(** Every batch of the test loader is the assembler's output on a group of
    consecutive examples. *)
Lemma DataLoader_batches (dataset : list (list nat * Z)) (batch_size : nat)
  (batches : list batch) :
  DataLoader dataset batch_size = Some batches ->
  Forall (fun b => exists samples, batchify_fn samples = Some b) batches.
Proof.
  intros H. apply mapM_some in H.
  induction H as [|samples b groups bs Hb _ IH]; constructor.
  - exists samples. exact Hb.
  - exact IH.
Qed.

(** Every batch of the training loader is the assembler's output on the
    examples of one index group. *)
Lemma SampledDataLoader_batches (dataset : list (list nat * Z))
  (batch_sampler : list (list nat)) (batches : list batch) :
  SampledDataLoader dataset batch_sampler = Some batches ->
  Forall (fun b => exists samples, batchify_fn samples = Some b) batches.
Proof.
  intros H. apply mapM_some in H.
  induction H as [|indices b groups bs Hb _ IH]; constructor.
  - destruct (take_samples dataset indices) as [samples|];
      cbn [bind] in Hb; [|discriminate].
    exists samples. exact Hb.
  - exact IH.
Qed.

End BatchFacts.

(** ** Examples without tokens *)

Module ZeroLengthFacts.

Import NDArray Data.

(** C3, as stated, fails: a review without tokens is preprocessed and
    batched without an error, its batch carries the valid length 0, the
    pooling layer returns normally with a non-finite pooled entry for it,
    and the evaluation pass goes through. *)
Lemma zero_length_example_not_rejected :
  ~ rejected_or_filtered Toy.tokenizer Toy.vocab Toy.empty_review 32 /\
  preprocess_dataset Toy.tokenizer Toy.vocab Toy.empty_review
  = ([([], 0%Z); ([4; 4]%nat, 1%Z)], [float_of_nat 0; float_of_nat 2]) /\
  DataLoader (fst (preprocess_dataset Toy.tokenizer Toy.vocab Toy.empty_review)) 32
  = Some [(([[0; 0]; [4; 4]]%nat, [0; 2]%nat), [inject_Z 0; inject_Z 1])] /\
  option_map to_list2
    (MeanPoolingLayer.hybrid_forward
       (Toy.encoder (Toy.embedding (transpose (array2 [[0; 0]; [4; 4]]%nat))))
       [0; 2]%nat)
  = Some [[None]; [Some (8 # 2)]] /\
  Evaluate.evaluate Toy.net Toy.no_loss
    [(([[0; 0]; [4; 4]]%nat, [0; 2]%nat), [inject_Z 0; inject_Z 1])]
  = Some (0 # 2, 2 # 2).
Proof.
  split; [|repeat split; vm_compute; reflexivity].
  unfold rejected_or_filtered. vm_compute. intros H.
  inversion H as [|? ? Hb _]; subst. inversion Hb as [|? ? Hle _]; subst.
  inversion Hle.
Qed.

End ZeroLengthFacts.

(** ** The sampler without shuffling *)

Module SamplerFacts.

Import NDArray Data Sampler.
Local Open Scope nat_scope.

Section Deterministic.

Variable rng : Type.
Variable shuffle : forall A : Type, list A -> rng -> list A * rng.
Variable bucket_scheme : list nat -> nat -> list nat.
Variable scale : nat -> Q -> nat -> nat -> nat.

(** A sampler built with [shuffle = false] does not shuffle. *)
Lemma FixedBucketSampler_flag (lengths : list nat) (batch_size num_buckets : nat)
  (ratio : Q) (flag : bool) (s : sampler) :
  FixedBucketSampler bucket_scheme scale lengths batch_size num_buckets
                     ratio flag = Some s ->
  do_shuffle s = flag /\ (1 <= num_buckets)%nat /\ (1 <= batch_size)%nat.
Proof.
  unfold FixedBucketSampler.
  destruct (Nat.ltb_spec num_buckets 1), (Nat.ltb_spec batch_size 1);
    cbn [orb]; try discriminate.
  destruct (existsb (fun len => len <? 1) lengths); [discriminate|].
  intros Hs. injection Hs as <-. cbn [do_shuffle]. repeat split; assumption.
Qed.

(** Without shuffling the buckets are cut into chunks and the generator is
    left alone. *)
Lemma rmapM_bucket_batches_false (l : list (list nat * nat)) (g : rng) :
  rmapM rng (bucket_batches rng shuffle false) l g
  = (map (fun b => chunks (snd b) (fst b)) l, g).
Proof.
  induction l as [|[ids size] l IH]; cbn [rmapM map fst snd].
  - reflexivity.
  - unfold rbind at 1. unfold bucket_batches at 1. unfold rbind at 1.
    unfold ret at 1 2. unfold rbind at 1. rewrite IH. reflexivity.
Qed.

Lemma iterate_no_shuffle (s : sampler) (g : rng) :
  do_shuffle s = false ->
  iterate rng shuffle s g
  = (concat (map (fun b => chunks (snd b) (fst b))
                 (combine (bucket_sample_ids s) (bucket_batch_sizes s))), g).
Proof.
  intros Hflag. unfold iterate. rewrite Hflag. unfold rbind.
  rewrite rmapM_bucket_batches_false. reflexivity.
Qed.

(** C7.  For a sampler built with [shuffle = false], the batches of a pass
    do not depend on the state of the random generator, and two passes in
    a row give the same batches, in the same order, leaving the generator
    untouched. *)
Theorem sampler_deterministic_without_shuffle
  (lengths : list nat) (batch_size num_buckets : nat) (ratio : Q)
  (s : sampler) :
  FixedBucketSampler bucket_scheme scale lengths batch_size num_buckets
                     ratio false = Some s ->
  forall g g' : rng,
    fst (iterate rng shuffle s g) = fst (iterate rng shuffle s g') /\
    two_epochs rng shuffle s g
    = ((fst (iterate rng shuffle s g), fst (iterate rng shuffle s g)), g).
Proof.
  intros Hs g g'.
  destruct (FixedBucketSampler_flag _ _ _ _ _ _ Hs) as (Hflag & _ & _).
  unfold two_epochs, rbind, ret.
  rewrite !(iterate_no_shuffle s _ Hflag). cbn [fst]. split; reflexivity.
Qed.

End Deterministic.

Lemma sampler_deterministic_without_shuffle_witness :
  fst (iterate nat (@Toy.rotate) Toy.example_sampler 0)
  = fst (iterate nat (@Toy.rotate) Toy.example_sampler 5) /\
  two_epochs nat (@Toy.rotate) Toy.example_sampler 0
  = ((fst (iterate nat (@Toy.rotate) Toy.example_sampler 0),
      fst (iterate nat (@Toy.rotate) Toy.example_sampler 0)), 0).
Proof.
  refine (sampler_deterministic_without_shuffle nat (@Toy.rotate)
            const_width_keys stats_scale Toy.example_lengths 2 2 (2 # 10)
            Toy.example_sampler _ 0 5).
  vm_compute. reflexivity.
Defined.

(** *** The batches are a partition of the example indices *)

Lemma chunks_aux_concat {A : Type} (fuel n : nat) (l : list A) :
  1 <= n -> length l <= fuel -> concat (chunks_aux fuel n l) = l.
Proof.
  intros Hn. revert l. induction fuel as [|fuel IH]; intros l Hl.
  - destruct l; [reflexivity | cbn in Hl; lia].
  - destruct l as [|a l]; [reflexivity|].
    cbn [chunks_aux concat]. rewrite IH.
    + apply firstn_skipn.
    + rewrite length_skipn. cbn [length] in *. lia.
Qed.

Lemma concat_chunks {A : Type} (n : nat) (l : list A) :
  1 <= n -> concat (chunks n l) = l.
Proof. intros Hn. apply chunks_aux_concat; [assumption | lia]. Qed.

Lemma concat_bucket_chunks (ids : list (list nat)) (sizes : list nat) :
  length ids = length sizes -> Forall (fun k => 1 <= k) sizes ->
  concat (concat (map (fun b => chunks (snd b) (fst b)) (combine ids sizes)))
  = concat ids.
Proof.
  revert sizes. induction ids as [|i ids IH]; intros [|k sizes] Hlen Hpos;
    cbn in Hlen; try lia; [reflexivity|].
  inversion Hpos as [|? ? Hk Hrest]; subst.
  cbn [combine map concat fst snd]. rewrite concat_app, concat_chunks by exact Hk.
  rewrite IH by (assumption || lia). reflexivity.
Qed.

Lemma filter_disjoint_perm {A : Type} (p q : A -> bool) (l : list A) :
  (forall x, p x = true -> q x = false) ->
  Permutation (filter p l ++ filter q l) (filter (fun x => p x || q x) l).
Proof.
  intros Hdisj. induction l as [|a l IH]; [constructor|].
  cbn [filter]. destruct (p a) eqn:Hp; cbn [orb].
  - rewrite (Hdisj a Hp). cbn [app]. apply perm_skip, IH.
  - destruct (q a).
    + symmetry. apply Permutation_cons_app. symmetry. exact IH.
    + exact IH.
Qed.

(** Grouping by a bucket number below [m] only reorders the list. *)
Lemma group_by_bucket_perm {A : Type} (f : A -> nat) (l : list A) (m : nat) :
  Permutation (concat (map (fun b => filter (fun x => f x =? b) l) (seq 0 m)))
              (filter (fun x => f x <? m) l).
Proof.
  induction m as [|m IH].
  - cbn. induction l as [|a l IHl]; [constructor | exact IHl].
  - rewrite seq_S, map_app, concat_app. cbn [map concat plus].
    rewrite app_nil_r.
    rewrite (filter_ext (fun x => f x <? S m)
                        (fun x => (f x <? m) || (f x =? m))).
    + etransitivity; [apply Permutation_app_tail, IH|].
      apply filter_disjoint_perm. intros x Hx.
      apply Nat.ltb_lt in Hx. apply Nat.eqb_neq. lia.
    + intros x. destruct (Nat.ltb_spec (f x) (S m)), (Nat.ltb_spec (f x) m),
        (Nat.eqb_spec (f x) m); cbn; try reflexivity; lia.
Qed.

Lemma bucket_of_lt (keys : list nat) (len : nat) :
  keys <> [] -> bucket_of keys len < length keys.
Proof.
  induction keys as [|k ks IH]; intros Hne; [contradiction|].
  destruct ks as [|k' ks]; [cbn; lia|].
  change (bucket_of (k :: k' :: ks) len)
    with (if len <=? k then O else S (bucket_of (k' :: ks) len)).
  destruct (len <=? k); cbn [length] in *; [lia|].
  assert (bucket_of (k' :: ks) len < S (length ks))
    by (apply IH; discriminate).
  lia.
Qed.

Lemma filter_all {A : Type} (p : A -> bool) (l : list A) :
  (forall x, In x l -> p x = true) -> filter p l = l.
Proof.
  induction l as [|a l IH]; intros Hall; [reflexivity|].
  cbn [filter]. rewrite (Hall a) by (left; reflexivity).
  rewrite IH by (intros x Hx; apply Hall; right; exact Hx). reflexivity.
Qed.

Section Partition.

Variable rng : Type.
Variable shuffle : forall A : Type, list A -> rng -> list A * rng.
Variable bucket_scheme : list nat -> nat -> list nat.
Variable scale : nat -> Q -> nat -> nat -> nat.

(** Whenever the key scheme gives at least one key, the batches of a pass
    without shuffling hold every example index exactly once. *)
Lemma sampler_batches_partition
  (lengths : list nat) (batch_size num_buckets : nat) (ratio : Q)
  (s : sampler) (g : rng) :
  FixedBucketSampler bucket_scheme scale lengths batch_size num_buckets
                     ratio false = Some s ->
  bucket_scheme lengths num_buckets <> [] ->
  Permutation (concat (fst (iterate rng shuffle s g)))
              (seq 0 (length lengths)).
Proof.
  intros Hs Hkeys.
  destruct (FixedBucketSampler_flag _ _ _ _ _ _ _ _ Hs) as (Hflag & _ & _).
  rewrite (iterate_no_shuffle rng shuffle s g Hflag). cbn [fst].
  unfold FixedBucketSampler in Hs.
  destruct ((num_buckets <? 1) || (batch_size <? 1)); [discriminate|].
  destruct (existsb (fun len => len <? 1) lengths); [discriminate|].
  injection Hs as <-. cbn [bucket_sample_ids bucket_batch_sizes].
  set (keys := bucket_scheme lengths num_buckets) in *.
  rewrite concat_bucket_chunks.
  - unfold members.
    etransitivity; [apply group_by_bucket_perm|].
    rewrite filter_all; [reflexivity|].
    intros i _. apply Nat.ltb_lt, bucket_of_lt, Hkeys.
  - rewrite !length_map, length_seq. reflexivity.
  - apply Forall_map, Forall_forall. intros key _.
    destruct (scale batch_size ratio (list_max keys) key); lia.
Qed.

End Partition.

(** The batches of the example sampler; with shuffling, two passes in a
    row differ. *)
Example example_sampler_batches :
  fst (iterate nat (@Toy.rotate) Toy.example_sampler 0)
  = [[0; 2]; [4; 6]; [1; 3]; [5]]%nat
  /\ (exists s, FixedBucketSampler const_width_keys stats_scale
                  Toy.example_lengths 2 2 (2 # 10) true = Some s
                /\ fst (fst (two_epochs nat (@Toy.rotate) s 0))
                   <> snd (fst (two_epochs nat (@Toy.rotate) s 0))).
Proof.
  split; [reflexivity|].
  eexists. split; [vm_compute; reflexivity|]. vm_compute. discriminate.
Qed.

(** The keys and batch sizes printed by [batch_sampler.stats()] in the
    notebook, for lengths between 10 and 500. *)
Example notebook_stats :
  const_width_keys [10; 500; 60; 70; 300]%nat 10
  = [59; 108; 157; 206; 255; 304; 353; 402; 451; 500]%nat
  /\ map (stats_scale 32 (2 # 10) 500)
         [59; 108; 157; 206; 255; 304; 353; 402; 451; 500]%nat
     = [54; 32; 32; 32; 32; 32; 32; 32; 32; 32]%nat.
Proof. split; vm_compute; reflexivity. Qed.

(** Configuration errors are raised before any batch is produced. *)
Lemma FixedBucketSampler_config_error
  (bucket_scheme : list nat -> nat -> list nat)
  (scale : nat -> Q -> nat -> nat -> nat)
  (lengths : list nat) (batch_size num_buckets : nat) (ratio : Q)
  (flag : bool) :
  (num_buckets < 1)%nat \/ (batch_size < 1)%nat ->
  FixedBucketSampler bucket_scheme scale lengths batch_size num_buckets
                     ratio flag = None.
Proof.
  intros Hbad. unfold FixedBucketSampler.
  destruct (Nat.ltb_spec num_buckets 1), (Nat.ltb_spec batch_size 1);
    cbn [orb]; try reflexivity; lia.
Qed.

(** A length of 0 is rejected, whatever the configuration. *)
Lemma FixedBucketSampler_zero_length
  (bucket_scheme : list nat -> nat -> list nat)
  (scale : nat -> Q -> nat -> nat -> nat)
  (lengths : list nat) (batch_size num_buckets : nat) (ratio : Q)
  (flag : bool) :
  In 0 lengths ->
  FixedBucketSampler bucket_scheme scale lengths batch_size num_buckets
                     ratio flag = None.
Proof.
  intros Hzero. unfold FixedBucketSampler.
  destruct ((num_buckets <? 1) || (batch_size <? 1)); [reflexivity|].
  replace (existsb (fun len => len <? 1) lengths) with true; [reflexivity|].
  symmetry. apply existsb_exists. exists 0. split; [exact Hzero | reflexivity].
Qed.

End SamplerFacts.

(** ** The sigmoid *)

Module SigmoidFacts.

Import Inference.
Local Open Scope R_scope.

Lemma sigmoid_range (x : R) : 0 < sigmoid x < 1.
Proof.
  unfold sigmoid. pose proof (exp_pos (- x)) as He.
  assert (Hd : 0 < 1 + exp (- x)) by lra.
  pose proof (Rinv_0_lt_compat _ Hd) as Hinv.
  assert (Hone : / (1 + exp (- x)) * (1 + exp (- x)) = 1)
    by (apply Rinv_l; lra).
  unfold Rdiv. rewrite Rmult_1_l. split; [assumption | nra].
Qed.

Lemma sigmoid_0 : sigmoid 0 = 1 / 2.
Proof. unfold sigmoid. rewrite Ropp_0, exp_0. lra. Qed.

(** The probability is above one half exactly when the logit is above 0. *)
Lemma sigmoid_gt_half_iff (x : R) : 1 / 2 < sigmoid x <-> 0 < x.
Proof.
  unfold sigmoid. pose proof (exp_pos (- x)) as He.
  assert (Hd : 0 < 1 + exp (- x)) by lra.
  pose proof (Rinv_0_lt_compat _ Hd) as Hinv.
  assert (Hone : / (1 + exp (- x)) * (1 + exp (- x)) = 1)
    by (apply Rinv_l; lra).
  replace (1 / (1 + exp (- x))) with (/ (1 + exp (- x)))
    by (unfold Rdiv; now rewrite Rmult_1_l).
  assert (Hexp : exp (- x) < 1 <-> 0 < x).
  { rewrite <- exp_0. split.
    - intros Hlt. apply exp_lt_inv in Hlt. lra.
    - intros Hx. apply exp_increasing. lra. }
  rewrite <- Hexp. set (e := exp (- x)) in *. set (y := / (1 + e)) in *.
  split; intros Hlt.
  - destruct (Rlt_le_dec e 1) as [He1 | He1]; [assumption|]. exfalso.
    assert (Hm : y * 2 <= y * (1 + e)) by (apply Rmult_le_compat_l; lra).
    lra.
  - destruct (Rlt_le_dec (1 / 2) y) as [Hy | Hy]; [assumption|]. exfalso.
    assert (Hm : y * (1 + e) <= 1 / 2 * (1 + e))
      by (apply Rmult_le_compat_r; lra).
    lra.
Qed.

End SigmoidFacts.

(** ** The evaluation pass *)

Module EvaluateFacts.

Import NDArray Data Evaluate.
Local Open Scope Q_scope.

Lemma Qgtb_true_iff (x y : Q) : Qgtb x y = true <-> y < x.
Proof.
  unfold Qgtb. rewrite negb_true_iff.
  destruct (Qle_bool x y) eqn:Hle.
  - apply Qle_bool_iff in Hle. split; [discriminate|].
    intros Hlt. exfalso. apply (Qlt_not_le _ _ Hlt), Hle.
  - split; [|reflexivity]. intros _. apply Qnot_le_lt. intros Hxy.
    apply Qle_bool_iff in Hxy. congruence.
Qed.

(** What [evaluate] computes: an example is predicted positive exactly when
    its raw network output, the logit, is above 0.5. *)
Lemma pred_entry_positive_iff (o : option Q) :
  pred_entry o = 1 <-> exists x, o = Some x /\ 1 # 2 < x.
Proof.
  unfold pred_entry. destruct o as [x|].
  - destruct (Qgtb x (1 # 2)) eqn:Hgt.
    + apply Qgtb_true_iff in Hgt. split; [|reflexivity].
      intros _. exists x. split; [reflexivity | assumption].
    + split; [discriminate|]. intros (y & Hy & Hlt).
      injection Hy as <-. apply Qgtb_true_iff in Hlt. congruence.
  - split; [discriminate|]. intros (y & Hy & _). discriminate.
Qed.

Lemma pred_is_pred_entry (output : NDArray2 (option Q)) (n m : nat) :
  shape2 output = (n, m) ->
  pred output = map (fun j => pred_entry (get2 output j O)) (seq 0 n).
Proof. intros Hshape. unfold pred. rewrite Hshape. reflexivity. Qed.

(** A logit of exactly 0 is predicted negative. *)
Lemma pred_entry_zero : pred_entry (Some 0) = 0.
Proof. reflexivity. Qed.

(** C1.  The evaluation pass compares the logit with 0.5, not with 0: a
    review labelled positive whose logit is 1/4, hence above 0 and with
    [sigmoid] above one half, is predicted negative and counted as an
    error, so that the reported accuracy is 0. *)
Theorem evaluate_thresholds_logit_at_half :
  DataLoader (fst (preprocess_dataset Toy.tokenizer Toy.vocab
                     Toy.short_review)) 32
  = Some [(([[1%nat]], [1%nat]), [inject_Z 1])] /\
  option_map to_list2 (Toy.quarter_net (transpose (array2 [[1%nat]])) [1%nat])
  = Some [[Some (1 # 4)]] /\
  0 < 1 # 4 /\
  (1 / 2 < Inference.sigmoid (Q2R (1 # 4)))%R /\
  option_map pred (Toy.quarter_net (transpose (array2 [[1%nat]])) [1%nat])
  = Some [0] /\
  evaluate Toy.quarter_net Toy.no_loss [(([[1%nat]], [1%nat]), [inject_Z 1])]
  = Some (0, 0).
Proof.
  repeat split; try (vm_compute; reflexivity).
  apply SigmoidFacts.sigmoid_gt_half_iff. unfold Q2R. cbn. lra.
Qed.

End EvaluateFacts.

(** ** The inference cell *)

Module InferenceFacts.

Import NDArray Data Inference.

(** Whatever the sentence, a probability returned by the cell lies
    strictly between 0 and 1. *)
Lemma res_in_unit_interval (tokenizer : string -> list string)
  (vocab : string -> nat)
  (net : NDArray2 nat -> list nat -> option (NDArray2 (option Q)))
  (test_sentence : string) (p : R) :
  res tokenizer vocab net test_sentence = Some (Some p) ->
  (0 < p < 1)%R.
Proof.
  unfold res. destruct (res_logits tokenizer vocab net test_sentence) as [out|];
    cbn [bind]; [|discriminate].
  destruct (get2 out O O) as [q|]; cbn [sigmoid_entry]; [|discriminate].
  intros H. injection H as <-. apply SigmoidFacts.sigmoid_range.
Qed.

Lemma dot_some (n : nat) (x : nat -> option Q) (w : nat -> Q) :
  (forall k, (k < n)%nat -> exists q, x k = Some q) ->
  exists q, SentimentNet.dot n x w = Some q.
Proof.
  induction n as [|n IH]; intros Hx; cbn [SentimentNet.dot].
  - eexists. reflexivity.
  - destruct IH as [q Hq]; [intros k Hk; apply Hx; lia|].
    destruct (Hx n) as [q' Hq']; [lia|].
    rewrite Hq, Hq'. eexists. reflexivity.
Qed.

(** The cell always returns: for an encoder that keeps the (T, 1, C) layout
    of a one-column batch, the network succeeds on any sentence, its logit
    is finite (the divisor is the literal 4), and the result is a
    probability strictly between 0 and 1. *)
Lemma res_total (tokenizer : string -> list string) (vocab : string -> nat)
  (embedding : NDArray2 nat -> NDArray3) (encoder : NDArray3 -> NDArray3)
  (weight : nat -> Q) (bias : Q) (test_sentence : string) :
  (forall ids, exists T C,
      shape3 (encoder (embedding (column ids))) = (T, 1%nat, C)) ->
  exists p,
    res tokenizer vocab
        (SentimentNet.hybrid_forward embedding encoder weight bias)
        test_sentence = Some (Some p) /\ (0 < p < 1)%R.
Proof.
  intros Hshape.
  set (ids := vocab_getitem vocab (tokenizer test_sentence)).
  destruct (Hshape ids) as (T & C & HTC).
  destruct (MeanPoolingFacts.hybrid_forward_entries
              (encoder (embedding (column ids))) [4%nat] T 1 C HTC eq_refl)
    as (P & HP & HPshape & Hentry).
  assert (Hdot : exists q,
             SentimentNet.dot C (get2 P O) weight = Some q).
  { apply dot_some. intros k Hk. rewrite (Hentry O k) by (assumption || lia).
    cbn. eexists. reflexivity. }
  destruct Hdot as [q Hq].
  exists (sigmoid (Q2R (q + bias))). split; [|apply SigmoidFacts.sigmoid_range].
  unfold res, res_logits, SentimentNet.hybrid_forward. fold ids.
  rewrite HP. cbn [bind]. unfold SentimentNet.output, SentimentNet.Dropout,
    SentimentNet.Dense. rewrite HPshape. cbn [get2]. rewrite Hq.
  reflexivity.
Qed.

(** C4.  The inference cell passes the literal valid length 4 whatever the
    number of tokens: for the second test sentence of the notebook, split
    at spaces into 14 tokens, the logit is the mean over the first four
    positions only, 21/4, where the pipeline with the token count as valid
    length gives 81/14. *)
Theorem res_valid_length_is_literal_four :
  vocab_getitem Toy.vocab (Toy.tokenizer Toy.test_sentence)
  = [4; 5; 7; 5; 12; 3; 9; 3; 9; 3; 3; 6; 3; 9]%nat /\
  option_map to_list2
    (res_logits Toy.tokenizer Toy.vocab Toy.net Toy.test_sentence)
  = Some [[Some (21 # 4)]] /\
  option_map to_list2
    (res_with_token_count Toy.tokenizer Toy.vocab Toy.net Toy.test_sentence)
  = Some [[Some (81 # 14)]] /\
  ~ (21 # 4 == 81 # 14).
Proof.
  repeat split; try (vm_compute; reflexivity).
  intros H. vm_compute in H. discriminate.
Qed.

End InferenceFacts.

(** ** More on the masked mean-pooling layer *)

Module MeanPoolingMore.

Import NDArray MeanPoolingLayer SumFacts Loader.
Local Open Scope Q_scope.

Lemma sum_upto_plus (n : nat) (f g : nat -> Q) :
  sum_upto n (fun t => f t + g t) == sum_upto n f + sum_upto n g.
Proof.
  induction n as [|n IH]; simpl.
  - ring.
  - rewrite IH. ring.
Qed.

Lemma sum_upto_bounds (n : nat) (f : nat -> Q) (lo hi : Q) :
  (forall t, (t < n)%nat -> lo <= f t <= hi) ->
  float_of_nat n * lo <= sum_upto n f <= float_of_nat n * hi.
Proof.
  induction n as [|n IH]; intros Hf.
  - change (float_of_nat 0) with 0. simpl. split; Lqa.lra.
  - destruct IH as [IHlo IHhi]; [intros t Ht; apply Hf; lia|].
    destruct (Hf n) as [Hlo Hhi]; [lia|].
    assert (HS : float_of_nat (S n) == float_of_nat n + 1).
    { unfold float_of_nat. rewrite Nat2Z.inj_succ, <- Z.add_1_r, inject_Z_plus.
      reflexivity. }
    simpl sum_upto. rewrite HS. split; Lqa.lra.
Qed.

(** The masked sum of a column whose valid length fits the tensor. *)
Lemma masked_sum_within (T v : nat) (f : nat -> Q) :
  (v <= T)%nat ->
  sum_upto T (fun t => if (t <? v)%nat then f t else 0) == sum_upto v f.
Proof.
  intros Hv. rewrite sum_upto_mask, Nat.min_l by assumption. reflexivity.
Qed.

(** X1.  Pooling is linear: when every valid position of [H] holds
    [a * F + b * G], every pooled entry of [H] is [a] times the pooled
    entry of [F] plus [b] times the pooled entry of [G], whatever the
    padded positions of the three tensors hold. *)
Theorem pooling_linear_combination
  (a b : Q) (F G H : NDArray3) (vl : list nat) (T N C : nat) :
  shape3 F = (T, N, C) -> shape3 G = (T, N, C) -> shape3 H = (T, N, C) ->
  length vl = N -> Forall (fun v => (1 <= v)%nat) vl ->
  (forall t j k, (t < T)%nat -> (j < N)%nat -> (k < C)%nat ->
     (t < nth j vl O)%nat ->
     get3 H t j k == a * get3 F t j k + b * get3 G t j k) ->
  exists PF PG PH,
    hybrid_forward F vl = Some PF /\ hybrid_forward G vl = Some PG /\
    hybrid_forward H vl = Some PH /\
    forall j k, (j < N)%nat -> (k < C)%nat ->
      exists qf qg qh,
        get2 PF j k = Some qf /\ get2 PG j k = Some qg /\
        get2 PH j k = Some qh /\ qh == a * qf + b * qg.
Proof.
  intros HF HG HH Hlen Hge Hcomb.
  destruct (MeanPoolingFacts.hybrid_forward_entries F vl T N C HF Hlen)
    as (PF & HPF & _ & HeF).
  destruct (MeanPoolingFacts.hybrid_forward_entries G vl T N C HG Hlen)
    as (PG & HPG & _ & HeG).
  destruct (MeanPoolingFacts.hybrid_forward_entries H vl T N C HH Hlen)
    as (PH & HPH & _ & HeH).
  exists PF, PG, PH. repeat split; try assumption.
  intros j k Hj Hk. rewrite (HeF j k Hj Hk), (HeG j k Hj Hk), (HeH j k Hj Hk).
  assert (Hv : (1 <= nth j vl O)%nat)
    by (apply MeanPoolingFacts.nth_Forall_ge1; [assumption | lia]).
  unfold fdiv. destruct (Nat.eqb_spec (nth j vl O) 0) as [H0 | _]; [lia|].
  do 3 eexists. repeat (split; [reflexivity|]).
  set (v := nth j vl O) in *.
  assert (Hsum :
    sum_upto T (fun t => if (t <? v)%nat then get3 H t j k else 0)
    == a * sum_upto T (fun t => if (t <? v)%nat then get3 F t j k else 0)
       + b * sum_upto T (fun t => if (t <? v)%nat then get3 G t j k else 0)).
  { rewrite <- !sum_upto_scale, <- sum_upto_plus. apply sum_upto_ext.
    intros t Ht. destruct (Nat.ltb_spec t v) as [Hlt | _].
    - apply Hcomb; assumption.
    - ring. }
  rewrite Hsum. field. apply float_of_nat_nonzero, Hv.
Qed.

Lemma pooling_linear_combination_witness :
  exists PF PG PH,
    hybrid_forward Toy.F_example Toy.vl_example = Some PF /\
    hybrid_forward Toy.F_contaminated Toy.vl_example = Some PG /\
    hybrid_forward
      {| shape3 := (3, 2, 2)%nat;
         get3 := fun t j k => 2 * get3 Toy.F_example t j k
                              + (-3) * get3 Toy.F_contaminated t j k |}
      Toy.vl_example = Some PH /\
    forall j k, (j < 2)%nat -> (k < 2)%nat ->
      exists qf qg qh,
        get2 PF j k = Some qf /\ get2 PG j k = Some qg /\
        get2 PH j k = Some qh /\ qh == 2 * qf + (-3) * qg.
Proof.
  apply (pooling_linear_combination 2 (-3) Toy.F_example Toy.F_contaminated
           _ Toy.vl_example 3 2 2).
  - reflexivity.
  - reflexivity.
  - reflexivity.
  - reflexivity.
  - repeat constructor.
  - intros t j k _ _ _ _. reflexivity.
Defined.

(** X2.  A pooled entry is a mean: when the valid length of example [j]
    is between 1 and the time extent and every valid position of channel
    [k] lies between [lo] and [hi], so does the pooled entry; in
    particular a column whose valid positions all hold the same value
    pools to that value. *)
Theorem pooled_entry_between_bounds
  (F : NDArray3) (vl : list nat) (T N C j k : nat) (lo hi : Q) :
  shape3 F = (T, N, C) -> length vl = N ->
  (j < N)%nat -> (k < C)%nat ->
  (1 <= nth j vl O <= T)%nat ->
  (forall t, (t < nth j vl O)%nat -> lo <= get3 F t j k <= hi) ->
  exists P q, hybrid_forward F vl = Some P /\ get2 P j k = Some q /\
              lo <= q <= hi.
Proof.
  intros HF Hlen Hj Hk [Hv1 HvT] Hbound.
  destruct (MeanPoolingFacts.hybrid_forward_entries F vl T N C HF Hlen)
    as (P & HP & _ & He).
  exists P. rewrite (He j k Hj Hk).
  unfold fdiv. destruct (Nat.eqb_spec (nth j vl O) 0) as [H0 | _]; [lia|].
  eexists. split; [assumption|]. split; [reflexivity|].
  set (v := nth j vl O) in *.
  rewrite (masked_sum_within T v (fun t => get3 F t j k) HvT).
  pose proof (float_of_nat_pos v Hv1) as Hpos.
  destruct (sum_upto_bounds v (fun t => get3 F t j k) lo hi Hbound)
    as [Hlo Hhi].
  split.
  - apply Qle_shift_div_l; [assumption|]. rewrite Qmult_comm. assumption.
  - apply Qle_shift_div_r; [assumption|]. rewrite Qmult_comm. assumption.
Qed.

Lemma pooled_entry_between_bounds_witness :
  exists P q, hybrid_forward Toy.F_example Toy.vl_example = Some P /\
              get2 P 0%nat 1%nat = Some q /\ 2 <= q <= 6.
Proof.
  apply (pooled_entry_between_bounds Toy.F_example Toy.vl_example 3 2 2 0 1
           2 6).
  - reflexivity.
  - reflexivity.
  - lia.
  - lia.
  - cbn. lia.
  - intros t Ht. cbn in Ht.
    destruct t as [|[|t]]; [cbn; split; Lqa.lra | cbn; split; Lqa.lra | lia].
Defined.

(** X3.  The pooled vector of an example does not depend on the other
    examples of its batch: row [j] of the pooled batch is what the layer
    returns for column [j] alone, as a batch of one. *)
Theorem pooling_is_per_example
  (F : NDArray3) (vl : list nat) (T N C j : nat) :
  shape3 F = (T, N, C) -> length vl = N -> (j < N)%nat ->
  exists P Pj,
    hybrid_forward F vl = Some P /\
    hybrid_forward (column3 F j) [nth j vl O] = Some Pj /\
    shape2 Pj = (1%nat, C) /\
    forall k, (k < C)%nat -> get2 Pj O k = get2 P j k.
Proof.
  intros HF Hlen Hj.
  destruct (MeanPoolingFacts.hybrid_forward_entries F vl T N C HF Hlen)
    as (P & HP & _ & He).
  assert (Hcol : shape3 (column3 F j) = (T, 1%nat, C))
    by (unfold column3; rewrite HF; reflexivity).
  destruct (MeanPoolingFacts.hybrid_forward_entries
              (column3 F j) [nth j vl O] T 1 C Hcol eq_refl)
    as (Pj & HPj & HPjshape & Hej).
  exists P, Pj. repeat split; try assumption.
  intros k Hk. rewrite (He j k Hj Hk), (Hej O k) by (lia || assumption).
  cbn [nth]. f_equal. apply sum_upto_ext_eq. intros t _.
  unfold column3. rewrite HF. reflexivity.
Qed.

Lemma pooling_is_per_example_witness :
  exists P Pj,
    hybrid_forward Toy.F_example Toy.vl_example = Some P /\
    hybrid_forward (column3 Toy.F_example 1) [nth 1 Toy.vl_example O]
    = Some Pj /\
    shape2 Pj = (1%nat, 2%nat) /\
    forall k, (k < 2)%nat -> get2 Pj O k = get2 P 1%nat k.
Proof.
  apply (pooling_is_per_example Toy.F_example Toy.vl_example 3 2 2 1).
  - reflexivity.
  - reflexivity.
  - lia.
Defined.

End MeanPoolingMore.

(** ** More on preprocessing and batching *)

Module PipelineMore.

Import NDArray Data Loader.
Local Open Scope nat_scope.

(** X4.  Preprocessing clips and binarises: every preprocessed example
    holds the indices of the first 500 tokens of its review, so at most 500
    of them, its label is 0 or 1, and every entry of the lengths lies
    between 0 and 500. *)
Theorem preprocess_dataset_clipped (tokenizer : string -> list string)
  (vocab : string -> nat) (dataset : list (string * Z)) :
  Forall2 (fun raw x =>
             length (fst x) = Nat.min 500 (length (tokenizer (fst raw))) /\
             length (fst x) <= 500 /\ (snd x = 0%Z \/ snd x = 1%Z))
          dataset (fst (preprocess_dataset tokenizer vocab dataset)) /\
  Forall (fun q => (0 <= q <= 500)%Q)
         (snd (preprocess_dataset tokenizer vocab dataset)).
Proof.
  assert (Hlen : forall raw,
             length (fst (preprocess tokenizer vocab raw))
             = Nat.min 500 (length (tokenizer (fst raw)))).
  { intros [text rating]. cbn [preprocess fst]. unfold vocab_getitem, length_clip.
    rewrite length_map. apply length_firstn. }
  split.
  - rewrite PreprocessFacts.preprocess_dataset_fst.
    induction dataset as [|raw rest IH]; cbn [map]; constructor; [|exact IH].
    split; [apply Hlen|]. split; [rewrite Hlen; apply Nat.le_min_l|].
    destruct raw as [text rating]. cbn [preprocess snd].
    destruct (5 <? rating)%Z; [right | left]; reflexivity.
  - rewrite PreprocessFacts.preprocess_dataset_snd,
      PreprocessFacts.preprocess_dataset_fst.
    apply Forall_map, Forall_map, Forall_forall. intros raw _.
    unfold get_length. rewrite Hlen.
    unfold float_of_nat, Qle. cbn [Qnum Qden inject_Z]. lia.
Qed.

Lemma unpad_rows (m : nat) (arrs : list (list nat)) :
  map (fun rv => firstn (snd rv) (fst rv))
      (combine (map (fun ele => ele ++ repeat pad_val (m - length ele)) arrs)
               (map (@length nat) arrs))
  = arrs.
Proof.
  induction arrs as [|a arrs IH]; [reflexivity|].
  cbn [map combine fst snd]. rewrite IH.
  rewrite firstn_app, Nat.sub_diag, firstn_all. cbn [firstn].
  rewrite app_nil_r. reflexivity.
Qed.

Lemma combine_fst_snd {A B C : Type} (f : B -> C) (l : list (A * B)) :
  combine (map fst l) (map f (map snd l)) = map (fun x => (fst x, f (snd x))) l.
Proof.
  induction l as [|x l IH]; [reflexivity|].
  cbn [map combine]. rewrite IH. reflexivity.
Qed.

Lemma batchify_fn_examples (samples : list (list nat * Z)) (b : batch) :
  batchify_fn samples = Some b -> batch_examples b = as_examples samples.
Proof.
  destruct b as [[padded valid_lengths] labels]. intros Hb.
  destruct (BatchFacts.batchify_fn_some _ _ _ _ Hb) as [HPad Hlabels].
  destruct (BatchFacts.Pad_some _ _ _ HPad) as (_ & Hl & Hp).
  unfold batch_examples, as_examples.
  rewrite Hp, Hl, unpad_rows, Hlabels. apply combine_fst_snd.
Qed.

Lemma batchify_fn_nonempty (samples : list (list nat * Z)) :
  samples <> [] -> exists b, batchify_fn samples = Some b.
Proof.
  destruct samples as [|x rest]; [contradiction|]. intros _.
  eexists. reflexivity.
Qed.

Lemma batchify_fn_label_count (samples : list (list nat * Z)) (b : batch) :
  batchify_fn samples = Some b -> length (snd b) = length samples.
Proof.
  destruct b as [[padded valid_lengths] labels]. intros Hb.
  destruct (BatchFacts.batchify_fn_some _ _ _ _ Hb) as [_ Hlabels].
  cbn [snd]. rewrite Hlabels, !length_map. reflexivity.
Qed.

(** X5.  Padding loses nothing: cutting every row of an assembled batch
    back to its valid length and pairing it with its label gives back the
    samples of the group, in their order, with the labels as floats. *)
Theorem batch_round_trip (samples : list (list nat * Z)) (b : batch) :
  batchify_fn samples = Some b ->
  batch_examples b = as_examples samples /\
  length (snd b) = length samples.
Proof.
  intros Hb. split; [apply batchify_fn_examples | apply batchify_fn_label_count];
    exact Hb.
Qed.

Lemma batch_round_trip_witness :
  batch_examples
    (([[7; 8; 9]; [4; 0; 0]; [5; 6; 0]], [3; 1; 2]),
     [inject_Z 1; inject_Z 0; inject_Z 1])
  = as_examples [([7; 8; 9], 1%Z); ([4], 0%Z); ([5; 6], 1%Z)] /\
  length (snd (([[7; 8; 9]; [4; 0; 0]; [5; 6; 0]], [3; 1; 2]),
               [inject_Z 1; inject_Z 0; inject_Z 1]))
  = length [([7; 8; 9], 1%Z); ([4], 0%Z); ([5; 6], 1%Z)].
Proof.
  apply (batch_round_trip [([7; 8; 9], 1%Z); ([4], 0%Z); ([5; 6], 1%Z)]).
  reflexivity.
Defined.

(** X6.  Every position of a padded row at or after the valid length of
    its example holds the pad value 0. *)
Theorem padding_is_pad_value (samples : list (list nat * Z))
  (padded : list (list nat)) (valid_lengths : list nat) (labels : list Q)
  (j t : nat) :
  batchify_fn samples = Some ((padded, valid_lengths), labels) ->
  j < length samples ->
  nth j valid_lengths O <= t < max_len padded ->
  nth t (nth j padded []) 1 = O.
Proof.
  intros Hb Hj [Hlo Hhi].
  destruct (BatchFacts.batchify_fn_some _ _ _ _ Hb) as [HPad _].
  pose proof (BatchFacts.Pad_max_len _ _ _ HPad) as Hmax.
  destruct (BatchFacts.Pad_some _ _ _ HPad) as (_ & Hl & Hp).
  assert (Hj' : j < length (map fst samples)) by (rewrite length_map; exact Hj).
  set (m := list_max valid_lengths) in *.
  rewrite Hl, (BatchFacts.nth_map_in _ _ j [] O Hj') in Hlo.
  rewrite Hp, (BatchFacts.nth_map_in _ _ j [] [] Hj').
  rewrite app_nth2 by exact Hlo.
  apply nth_repeat_lt. lia.
Qed.

Lemma padding_is_pad_value_witness :
  nth 2 (nth 1 [[7; 8; 9]; [4; 0; 0]; [5; 6; 0]] []) 1 = O.
Proof.
  apply (padding_is_pad_value [([7; 8; 9], 1%Z); ([4], 0%Z); ([5; 6], 1%Z)]
           [[7; 8; 9]; [4; 0; 0]; [5; 6; 0]] [3; 1; 2]
           [inject_Z 1; inject_Z 0; inject_Z 1] 1 2).
  - reflexivity.
  - cbn. lia.
  - cbn. lia.
Defined.

(** *** Chunks *)

Lemma ceil_step (n len : nat) :
  1 <= n -> 1 <= len ->
  (len + n - 1) / n = S ((len - n + n - 1) / n).
Proof.
  intros Hn Hlen. destruct (Nat.le_gt_cases n len) as [Hge | Hlt].
  - replace (len + n - 1) with ((len - n + n - 1) + 1 * n) by lia.
    rewrite Nat.div_add by lia. lia.
  - replace (len - n + n - 1) with (n - 1) by lia.
    rewrite (Nat.div_small (n - 1) n) by lia.
    replace (len + n - 1) with ((len - 1) + 1 * n) by lia.
    rewrite Nat.div_add by lia. rewrite Nat.div_small by lia. reflexivity.
Qed.

Lemma chunks_aux_spec {A : Type} (fuel n : nat) (l : list A) :
  1 <= n -> length l <= fuel ->
  length (chunks_aux fuel n l) = (length l + n - 1) / n /\
  Forall (fun c => c <> [] /\ length c <= n) (chunks_aux fuel n l).
Proof.
  intros Hn. revert l. induction fuel as [|fuel IH]; intros l Hl.
  - destruct l; [|cbn in Hl; lia]. cbn. split; [|constructor].
    symmetry. apply Nat.div_small. lia.
  - destruct l as [|a l].
    + cbn. split; [|constructor]. symmetry. apply Nat.div_small. lia.
    + cbn [chunks_aux].
      destruct (IH (skipn n (a :: l))) as [IHlen IHall].
      { rewrite length_skipn. cbn [length] in *. lia. }
      split.
      * rewrite (ceil_step n (length (a :: l))) by (cbn; lia).
        change (length (firstn n (a :: l) :: chunks_aux fuel n (skipn n (a :: l))))
          with (S (length (chunks_aux fuel n (skipn n (a :: l))))).
        rewrite IHlen, length_skipn. reflexivity.
      * constructor; [|exact IHall]. split.
        -- destruct n; [lia | discriminate].
        -- apply firstn_le_length.
Qed.

Lemma chunks_spec {A : Type} (n : nat) (l : list A) :
  1 <= n ->
  length (chunks n l) = (length l + n - 1) / n /\
  Forall (fun c => c <> [] /\ length c <= n) (chunks n l) /\
  concat (chunks n l) = l.
Proof.
  intros Hn. destruct (chunks_aux_spec (length l) n l Hn (le_n _)) as [H1 H2].
  repeat split; try assumption. apply SamplerFacts.concat_chunks, Hn.
Qed.

Lemma mapM_total {A B : Type} (f : A -> option B) (l : list A) :
  Forall (fun a => exists b, f a = Some b) l -> exists bs, mapM f l = Some bs.
Proof.
  induction 1 as [|a l [b Hb] _ [bs Hbs]]; cbn [mapM].
  - eexists. reflexivity.
  - rewrite Hb. cbn [bind]. rewrite Hbs. cbn [bind]. eexists. reflexivity.
Qed.

Lemma as_examples_concat (groups : list (list (list nat * Z))) :
  concat (map as_examples groups) = as_examples (concat groups).
Proof.
  unfold as_examples. symmetry. apply concat_map.
Qed.

(** The batches assembled from groups hold the examples of the groups, in
    order. *)
Lemma assembled_examples (groups : list (list (list nat * Z)))
  (batches : list batch) :
  Forall2 (fun samples b => batchify_fn samples = Some b) groups batches ->
  concat (map batch_examples batches) = as_examples (concat groups) /\
  Forall2 (fun samples b => length (snd b) = length samples) groups batches.
Proof.
  induction 1 as [|samples b groups batches Hb _ [IH1 IH2]].
  - split; [reflexivity | constructor].
  - split.
    + cbn [map concat]. rewrite IH1, (batchify_fn_examples _ _ Hb).
      unfold as_examples. rewrite map_app. reflexivity.
    + constructor; [|exact IH2].
      apply (batchify_fn_label_count _ _ Hb).
Qed.

End PipelineMore.

(** ** The loaders *)

Module LoaderMore.

Import NDArray Data Sampler Loader PipelineMore.
Local Open Scope nat_scope.

(** X7.  For a batch size of at least 1 the test loader never fails: it
    gives ceil(n / batch_size) batches, every batch holds between 1 and
    [batch_size] examples, and read one after the other the batches hold
    the examples of the dataset in their order, none dropped. *)
Theorem test_loader_batches (dataset : list (list nat * Z)) (batch_size : nat) :
  1 <= batch_size ->
  exists batches,
    DataLoader dataset batch_size = Some batches /\
    length batches = (length dataset + batch_size - 1) / batch_size /\
    Forall (fun b : batch => 1 <= length (snd b) <= batch_size) batches /\
    concat (map batch_examples batches) = as_examples dataset.
Proof.
  intros Hbs.
  destruct (chunks_spec batch_size dataset Hbs) as (Hcount & Hchunks & Hconcat).
  destruct (mapM_total batchify_fn (chunks batch_size dataset)) as [batches Hbatches].
  { eapply Forall_impl; [|exact Hchunks].
    intros samples [Hne _]. apply batchify_fn_nonempty, Hne. }
  exists batches. unfold DataLoader. split; [exact Hbatches|].
  apply BatchFacts.mapM_some in Hbatches.
  destruct (assembled_examples _ _ Hbatches) as [Hexamples Hcounts].
  split; [rewrite <- (Forall2_length Hbatches); exact Hcount|].
  split; [|rewrite Hexamples, Hconcat; reflexivity].
  clear Hbatches Hexamples Hcount Hconcat.
  induction Hcounts as [|samples b groups bs Hlen _ IH]; [constructor|].
  inversion Hchunks as [|? ? [Hne Hle] Hrest]; subst.
  constructor; [|apply IH; exact Hrest].
  rewrite Hlen. destruct samples; [contradiction | cbn [length] in *; lia].
Qed.

Lemma test_loader_batches_witness :
  exists batches,
    DataLoader [([7; 8; 9], 1%Z); ([4], 0%Z); ([5; 6], 1%Z)] 2 = Some batches /\
    length batches = (length [([7; 8; 9], 1%Z); ([4], 0%Z); ([5; 6], 1%Z)] + 2 - 1) / 2 /\
    Forall (fun b : batch => 1 <= length (snd b) <= 2) batches /\
    concat (map batch_examples batches)
    = as_examples [([7; 8; 9], 1%Z); ([4], 0%Z); ([5; 6], 1%Z)].
Proof.
  apply (test_loader_batches [([7; 8; 9], 1%Z); ([4], 0%Z); ([5; 6], 1%Z)] 2).
  lia.
Defined.

(** The 25000 test reviews in batches of 32 are the 782 batches that the
    evaluation of the notebook reports. *)
Example notebook_test_batches :
  ((25000 + Z.of_nat Hyperparameters.batch_size - 1)
   / Z.of_nat Hyperparameters.batch_size = 782)%Z.
Proof. reflexivity. Qed.

(** *** One pass over the sampler, with or without shuffling *)

Lemma Permutation_concat {A : Type} (l l' : list (list A)) :
  Permutation l l' -> Permutation (concat l) (concat l').
Proof.
  induction 1 as [|x l l' _ IH|x y l|l l' l'' _ IH1 _ IH2]; cbn [concat].
  - constructor.
  - apply Permutation_app_head, IH.
  - rewrite !app_assoc. apply Permutation_app_tail, Permutation_app_comm.
  - etransitivity; eassumption.
Qed.

Lemma map_fst_combine {A B : Type} (l : list A) (l' : list B) :
  length l = length l' -> map fst (combine l l') = l.
Proof.
  revert l'. induction l as [|a l IH]; intros [|b l'] Hlen; cbn in *;
    try lia; [reflexivity|].
  rewrite IH by lia. reflexivity.
Qed.

Lemma map_nth_seq {A : Type} (l : list A) (d : A) :
  map (fun i => nth i l d) (seq 0 (length l)) = l.
Proof.
  induction l as [|a l IH]; [reflexivity|].
  cbn [length seq map nth]. rewrite <- seq_shift, map_map. cbn [nth].
  rewrite IH. reflexivity.
Qed.

Section Pass.

Variable rng : Type.
Variable shuffle : forall A : Type, list A -> rng -> list A * rng.

(** What is asked of the library's shuffle: it reorders. *)
Hypothesis shuffle_permutes :
  forall (A : Type) (l : list A) (g : rng), Permutation (fst (shuffle A l g)) l.

Lemma bucket_batches_reorders (flag : bool) (b : list nat * nat) (g : rng) :
  1 <= snd b ->
  Permutation (concat (fst (bucket_batches rng shuffle flag b g))) (fst b) /\
  Forall (fun c => c <> []) (fst (bucket_batches rng shuffle flag b g)) /\
  length (fst (bucket_batches rng shuffle flag b g))
  = (length (fst b) + snd b - 1) / snd b.
Proof.
  destruct b as [ids size]. cbn [fst snd]. intros Hsize.
  assert (Hchunks : forall ids', Permutation ids' ids ->
            Permutation (concat (chunks size ids')) ids /\
            Forall (fun c : list nat => c <> []) (chunks size ids') /\
            length (chunks size ids') = (length ids + size - 1) / size).
  { intros ids' Hperm.
    destruct (chunks_spec size ids' Hsize) as (Hcount & Hall & Hconcat).
    split; [rewrite Hconcat; exact Hperm|]. split.
    - eapply Forall_impl; [|exact Hall]. intros c [Hne _]. exact Hne.
    - rewrite Hcount, (Permutation_length Hperm). reflexivity. }
  unfold bucket_batches, rbind. destruct flag.
  - pose proof (shuffle_permutes nat ids g) as Hp.
    destruct (shuffle nat ids g) as [ids' g']. cbn [fst] in Hp.
    unfold ret. cbn [fst]. apply Hchunks, Hp.
  - unfold ret. cbn [fst]. apply Hchunks, Permutation_refl.
Qed.

Lemma rmapM_cons {A B : Type} (f : A -> Rand rng B) (a : A) (l : list A)
  (g : rng) :
  rmapM rng f (a :: l) g
  = (let '(b, g1) := f a g in
     let '(bs, g2) := rmapM rng f l g1 in (b :: bs, g2)).
Proof.
  cbn [rmapM]. unfold rbind, ret. destruct (f a g) as [b g1].
  destruct (rmapM rng f l g1) as [bs g2]. reflexivity.
Qed.

Lemma rmapM_bucket_batches_reorders (flag : bool) (l : list (list nat * nat))
  (g : rng) :
  Forall (fun b => 1 <= snd b) l ->
  Permutation
    (concat (concat (fst (rmapM rng (bucket_batches rng shuffle flag) l g))))
    (concat (map fst l)) /\
  Forall (fun c => c <> [])
         (concat (fst (rmapM rng (bucket_batches rng shuffle flag) l g))) /\
  length (concat (fst (rmapM rng (bucket_batches rng shuffle flag) l g)))
  = list_sum (map (fun b => (length (fst b) + snd b - 1) / snd b) l).
Proof.
  intros Hall. revert g. induction Hall as [|b l Hb _ IH]; intros g.
  - cbn. repeat split; constructor.
  - rewrite rmapM_cons.
    destruct (bucket_batches_reorders flag b g Hb) as (Hp & Hne & Hcount).
    destruct (bucket_batches rng shuffle flag b g) as [cs g1].
    cbn [fst] in Hp, Hne, Hcount.
    destruct (IH g1) as (IHp & IHne & IHcount).
    destruct (rmapM rng (bucket_batches rng shuffle flag) l g1) as [rest g2].
    cbn [fst] in IHp, IHne, IHcount. cbn [fst concat map list_sum fold_right].
    rewrite concat_app. repeat split.
    + apply Permutation_app; assumption.
    + apply Forall_app. split; assumption.
    + rewrite length_app, Hcount, IHcount. reflexivity.
Qed.

(** One pass over any sampler whose bucket batch sizes are at least 1
    reorders the members of its buckets into non-empty index groups. *)
Lemma iterate_reorders (s : sampler) (g : rng) :
  length (bucket_sample_ids s) = length (bucket_batch_sizes s) ->
  Forall (fun k => 1 <= k) (bucket_batch_sizes s) ->
  Permutation (concat (fst (iterate rng shuffle s g)))
              (concat (bucket_sample_ids s)) /\
  Forall (fun c => c <> []) (fst (iterate rng shuffle s g)) /\
  length (fst (iterate rng shuffle s g))
  = list_sum (map (fun b => (length (fst b) + snd b - 1) / snd b)
                  (combine (bucket_sample_ids s) (bucket_batch_sizes s))).
Proof.
  intros Hlen Hsizes. unfold iterate, rbind.
  assert (Hall : Forall (fun b : list nat * nat => 1 <= snd b)
                        (combine (bucket_sample_ids s) (bucket_batch_sizes s))).
  { apply Forall_forall. intros [ids size] Hin. cbn [snd].
    rewrite Forall_forall in Hsizes. apply Hsizes.
    eapply in_combine_r, Hin. }
  destruct (rmapM_bucket_batches_reorders (do_shuffle s) _ g Hall)
    as (Hp & Hne & Hcount).
  destruct (rmapM rng (bucket_batches rng shuffle (do_shuffle s))
              (combine (bucket_sample_ids s) (bucket_batch_sizes s)) g)
    as [per_bucket g1].
  cbn [fst] in Hp, Hne, Hcount.
  rewrite (map_fst_combine _ _ Hlen) in Hp.
  destruct (do_shuffle s).
  - pose proof (shuffle_permutes (list nat) (concat per_bucket) g1) as Hsh.
    destruct (shuffle (list nat) (concat per_bucket) g1) as [batches g2].
    cbn [fst] in *. repeat split.
    + etransitivity; [apply Permutation_concat, Hsh | exact Hp].
    + eapply Permutation_Forall; [symmetry; exact Hsh | exact Hne].
    + rewrite (Permutation_length Hsh). exact Hcount.
  - unfold ret. cbn [fst]. repeat split; assumption.
Qed.

Section Built.

Variable bucket_scheme : list nat -> nat -> list nat.
Variable scale : nat -> Q -> nat -> nat -> nat.

Lemma FixedBucketSampler_buckets
  (lengths : list nat) (batch_size num_buckets : nat) (ratio : Q)
  (flag : bool) (s : sampler) :
  FixedBucketSampler bucket_scheme scale lengths batch_size num_buckets
                     ratio flag = Some s ->
  length (bucket_sample_ids s) = length (bucket_batch_sizes s) /\
  Forall (fun k => 1 <= k) (bucket_batch_sizes s) /\
  (bucket_scheme lengths num_buckets <> [] ->
   Permutation (concat (bucket_sample_ids s)) (seq 0 (length lengths))).
Proof.
  unfold FixedBucketSampler.
  destruct ((num_buckets <? 1) || (batch_size <? 1)); [discriminate|].
  destruct (existsb (fun len => len <? 1) lengths); [discriminate|].
  intros Hs. injection Hs as <-. cbn [bucket_sample_ids bucket_batch_sizes].
  set (keys := bucket_scheme lengths num_buckets).
  split; [rewrite !length_map, length_seq; reflexivity|].
  split.
  - apply Forall_map, Forall_forall. intros key _.
    destruct (scale batch_size ratio (list_max keys) key); lia.
  - intros Hkeys. unfold members.
    etransitivity; [apply SamplerFacts.group_by_bucket_perm|].
    rewrite SamplerFacts.filter_all; [reflexivity|].
    intros i _. apply Nat.ltb_lt, SamplerFacts.bucket_of_lt, Hkeys.
Qed.

Lemma sampler_pass (lengths : list nat) (batch_size num_buckets : nat)
  (ratio : Q) (flag : bool) (s : sampler) (g : rng) :
  FixedBucketSampler bucket_scheme scale lengths batch_size num_buckets
                     ratio flag = Some s ->
  bucket_scheme lengths num_buckets <> [] ->
  Permutation (concat (fst (iterate rng shuffle s g))) (seq 0 (length lengths)) /\
  Forall (fun c => c <> []) (fst (iterate rng shuffle s g)).
Proof.
  intros Hs Hkeys.
  destruct (FixedBucketSampler_buckets _ _ _ _ _ _ Hs) as (Hlen & Hsizes & Hperm).
  destruct (iterate_reorders s g Hlen Hsizes) as (Hp & Hne & _).
  split; [|exact Hne]. etransitivity; [exact Hp | apply Hperm, Hkeys].
Qed.

End Built.

End Pass.

End LoaderMore.

(** ** The training loader *)

Module TrainLoaderFacts.

Import NDArray Data Sampler Loader PipelineMore LoaderMore.
Local Open Scope nat_scope.

Lemma take_samples_in_range (dataset : list (list nat * Z)) (indices : list nat) :
  Forall (fun i => i < length dataset) indices ->
  take_samples dataset indices
  = Some (map (fun i => nth i dataset no_sample) indices).
Proof.
  unfold take_samples. induction 1 as [|i indices Hi _ IH]; [reflexivity|].
  cbn [mapM map]. rewrite (nth_error_nth' dataset no_sample Hi). cbn [bind].
  rewrite IH. reflexivity.
Qed.

(** The loader driven by index groups succeeds when the groups are not
    empty and name examples of the dataset, and its batches are assembled
    from the named examples. *)
Lemma SampledDataLoader_total (dataset : list (list nat * Z))
  (groups : list (list nat)) :
  Forall (fun grp => grp <> [] /\ Forall (fun i => i < length dataset) grp)
         groups ->
  exists batches,
    SampledDataLoader dataset groups = Some batches /\
    Forall2 (fun samples b => batchify_fn samples = Some b)
            (map (map (fun i => nth i dataset no_sample)) groups) batches.
Proof.
  unfold SampledDataLoader.
  induction 1 as [|grp groups [Hne Hrange] _ (batches & Hbatches & Hall)].
  - exists []. split; [reflexivity | constructor].
  - destruct (batchify_fn_nonempty
                (map (fun i => nth i dataset no_sample) grp)) as [b Hb].
    { destruct grp; [contradiction | discriminate]. }
    exists (b :: batches). cbn [mapM map].
    rewrite (take_samples_in_range _ _ Hrange). cbn [bind].
    rewrite Hb. cbn [bind]. rewrite Hbatches. cbn [bind].
    split; [reflexivity | constructor; assumption].
Qed.

(** Groups that together name every example once give batches that
    together hold every example once. *)
Lemma sampled_batches_cover (dataset : list (list nat * Z))
  (groups : list (list nat)) :
  Permutation (concat groups) (seq 0 (length dataset)) ->
  Forall (fun grp => grp <> []) groups ->
  exists batches,
    SampledDataLoader dataset groups = Some batches /\
    length batches = length groups /\
    Permutation (concat (map batch_examples batches)) (as_examples dataset).
Proof.
  intros Hperm Hne.
  assert (Hgroups :
    Forall (fun grp => grp <> [] /\ Forall (fun i => i < length dataset) grp)
           groups).
  { rewrite Forall_forall in *. intros grp Hin. split; [apply Hne, Hin|].
    apply Forall_forall. intros i Hi.
    assert (Hseq : In i (seq 0 (length dataset))).
    { eapply Permutation_in; [exact Hperm|].
      apply in_concat. exists grp. split; assumption. }
    apply in_seq in Hseq. lia. }
  destruct (SampledDataLoader_total dataset groups Hgroups)
    as (batches & Hbatches & Hall).
  exists batches. split; [exact Hbatches|].
  split; [rewrite <- (Forall2_length Hall), length_map; reflexivity|].
  destruct (assembled_examples _ _ Hall) as [Hexamples _].
  rewrite Hexamples, <- concat_map.
  unfold as_examples. apply Permutation_map.
  etransitivity; [apply Permutation_map, Hperm|].
  rewrite map_nth_seq. apply Permutation_refl.
Qed.

Lemma rotate_permutes (A : Type) (l : list A) (g : nat) :
  Permutation (fst (Toy.rotate l g)) l.
Proof.
  unfold Toy.rotate. cbn [fst].
  rewrite Permutation_app_comm, firstn_skipn. apply Permutation_refl.
Qed.

(** X8.  One pass over the bucket sampler, shuffled or not, is a partition
    of the example indices: as long as the shuffle only reorders and the
    key scheme gives at least one key, the index groups are non-empty,
    together they hold every index exactly once, and their number is the
    sum over the buckets of ceil(members / bucket batch size). *)
Theorem sampler_pass_is_partition
  (rng : Type) (shuffle : forall A : Type, list A -> rng -> list A * rng)
  (bucket_scheme : list nat -> nat -> list nat)
  (scale : nat -> Q -> nat -> nat -> nat)
  (lengths : list nat) (batch_size num_buckets : nat) (ratio : Q)
  (flag : bool) (s : sampler) (g : rng) :
  (forall (A : Type) (l : list A) (g0 : rng),
      Permutation (fst (shuffle A l g0)) l) ->
  FixedBucketSampler bucket_scheme scale lengths batch_size num_buckets
                     ratio flag = Some s ->
  bucket_scheme lengths num_buckets <> [] ->
  Permutation (concat (fst (iterate rng shuffle s g))) (seq 0 (length lengths)) /\
  Forall (fun grp => grp <> []) (fst (iterate rng shuffle s g)) /\
  length (fst (iterate rng shuffle s g))
  = list_sum (map (fun b => (length (fst b) + snd b - 1) / snd b)
                  (combine (bucket_sample_ids s) (bucket_batch_sizes s))).
Proof.
  intros Hshuffle Hs Hkeys.
  destruct (sampler_pass rng shuffle Hshuffle bucket_scheme scale _ _ _ _ _ _ g
              Hs Hkeys) as [Hperm Hne].
  destruct (FixedBucketSampler_buckets bucket_scheme scale _ _ _ _ _ _ Hs)
    as (Hlen & Hsizes & _).
  destruct (iterate_reorders rng shuffle Hshuffle s g Hlen Hsizes)
    as (_ & _ & Hcount).
  repeat split; assumption.
Qed.

Lemma sampler_pass_is_partition_witness :
  Permutation
    (concat (fst (iterate nat (@Toy.rotate)
                    {| bucket_keys := [6; 10];
                       bucket_sample_ids := [[0; 2; 4; 6]; [1; 3; 5]];
                       bucket_batch_sizes := [2; 2];
                       do_shuffle := true |} 3)))
    (seq 0 (length Toy.example_lengths)) /\
  Forall (fun grp => grp <> [])
    (fst (iterate nat (@Toy.rotate)
            {| bucket_keys := [6; 10];
               bucket_sample_ids := [[0; 2; 4; 6]; [1; 3; 5]];
               bucket_batch_sizes := [2; 2];
               do_shuffle := true |} 3)) /\
  length (fst (iterate nat (@Toy.rotate)
                 {| bucket_keys := [6; 10];
                    bucket_sample_ids := [[0; 2; 4; 6]; [1; 3; 5]];
                    bucket_batch_sizes := [2; 2];
                    do_shuffle := true |} 3))
  = list_sum (map (fun b => (length (fst b) + snd b - 1) / snd b)
                  (combine [[0; 2; 4; 6]; [1; 3; 5]] [2; 2])).
Proof.
  apply (sampler_pass_is_partition nat (@Toy.rotate) const_width_keys
           stats_scale Toy.example_lengths 2 2 (2 # 10) true).
  - exact rotate_permutes.
  - vm_compute. reflexivity.
  - vm_compute. discriminate.
Defined.

(** The bucket counts and batch sizes printed by [batch_sampler.stats()]
    in the notebook give the 779 batches it reports for 25000 samples. *)
Example notebook_batch_num :
  (fold_right Z.add 0
     (map (fun b => (fst b + snd b - 1) / snd b)
          (combine [591; 1999; 5092; 5108; 3035; 2084; 1476; 1164; 871; 3580]
                   [54; 32; 32; 32; 32; 32; 32; 32; 32; 32])) = 779
   /\ fold_right Z.add 0
        [591; 1999; 5092; 5108; 3035; 2084; 1476; 1164; 871; 3580] = 25000)%Z.
Proof. split; reflexivity. Qed.

(** X9.  The loaders that [get_dataloader] returns: the test loader is the
    sequential pass in batches of 32, and every pass over the training
    loader succeeds and presents every training example exactly once,
    tokens and label intact, in some order (as long as the library's
    shuffle only reorders, there is one length per example and the key
    scheme gives at least one key). *)
Theorem get_dataloader_covers_dataset
  (rng : Type) (shuffle : forall A : Type, list A -> rng -> list A * rng)
  (bucket_scheme : list nat -> nat -> list nat)
  (scale : nat -> Q -> nat -> nat -> nat)
  (train_dataset test_dataset : list (list nat * Z))
  (train_data_lengths : list Q)
  (batch_sampler : sampler) (test_dataloader : option (list batch)) (g : rng) :
  (forall (A : Type) (l : list A) (g0 : rng),
      Permutation (fst (shuffle A l g0)) l) ->
  length train_data_lengths = length train_dataset ->
  bucket_scheme (int_lengths train_data_lengths) Hyperparameters.bucket_num
  <> [] ->
  get_dataloader bucket_scheme scale test_dataset train_data_lengths
  = Some (batch_sampler, test_dataloader) ->
  test_dataloader = DataLoader test_dataset 32 /\
  exists batches,
    fst (train_batches rng shuffle train_dataset batch_sampler g)
    = Some batches /\
    Permutation (concat (map batch_examples batches))
                (as_examples train_dataset).
Proof.
  intros Hshuffle Hlen Hkeys Hget. unfold get_dataloader in Hget.
  destruct (FixedBucketSampler bucket_scheme scale
              (int_lengths train_data_lengths) Hyperparameters.batch_size
              Hyperparameters.bucket_num Hyperparameters.bucket_ratio true)
    as [s|] eqn:Hs; cbn [bind] in Hget; [|discriminate].
  injection Hget as <- <-. split; [reflexivity|].
  destruct (sampler_pass rng shuffle Hshuffle bucket_scheme scale _ _ _ _ _ _ g
              Hs Hkeys) as [Hperm Hne].
  unfold int_lengths in Hperm. rewrite length_map, Hlen in Hperm.
  destruct (sampled_batches_cover train_dataset _ Hperm Hne)
    as (batches & Hbatches & _ & Hcover).
  exists batches. split; [|exact Hcover].
  unfold train_batches.
  destruct (iterate rng shuffle s g) as [groups g'].
  cbn [fst] in *. exact Hbatches.
Qed.

Lemma get_dataloader_covers_dataset_witness :
  ToyTrain.test_loader = DataLoader [([4; 4], 1%Z)] 32 /\
  exists batches,
    fst (train_batches nat (@Toy.rotate) ToyTrain.train_set
           ToyTrain.batch_sampler 1)
    = Some batches /\
    Permutation (concat (map batch_examples batches))
                (as_examples ToyTrain.train_set).
Proof.
  apply (get_dataloader_covers_dataset nat (@Toy.rotate) const_width_keys
           stats_scale ToyTrain.train_set [([4; 4], 1%Z)] [3; 1; 2]%Q
           ToyTrain.batch_sampler ToyTrain.test_loader 1 rotate_permutes).
  - reflexivity.
  - vm_compute. discriminate.
  - vm_compute. reflexivity.
Defined.

End TrainLoaderFacts.

(** ** The network on a batch *)

Module NetFacts.

Import NDArray Data.
Local Open Scope Q_scope.

Lemma dot_none (n : nat) (x : nat -> option Q) (w : nat -> Q) :
  (exists k, (k < n)%nat /\ x k = None) -> SentimentNet.dot n x w = None.
Proof.
  induction n as [|n IH]; intros (k & Hk & Hx); [lia|].
  cbn [SentimentNet.dot].
  destruct (Nat.eq_dec k n) as [-> | Hne].
  - rewrite Hx. destruct (SentimentNet.dot n x w); reflexivity.
  - rewrite IH; [reflexivity|]. exists k. split; [lia | exact Hx].
Qed.

Section Net.

Variable embedding : NDArray2 nat -> NDArray3.
Variable encoder : NDArray3 -> NDArray3.
Variable weight : nat -> Q.
Variable bias : Q.

(** The forward pass on features of shape (T, N, C) with one valid length
    per column: it succeeds, and the logit of row [j] is the dense layer
    on row [j] of the pooled features. *)
Lemma hybrid_forward_rows (data : NDArray2 nat) (vl : list nat) (T N C : nat) :
  shape3 (encoder (embedding data)) = (T, N, C) -> length vl = N ->
  exists P out,
    MeanPoolingLayer.hybrid_forward (encoder (embedding data)) vl = Some P /\
    SentimentNet.hybrid_forward embedding encoder weight bias data vl
    = Some out /\
    shape2 out = (N, 1%nat) /\
    forall j k, get2 out j k
                = SentimentNet.fadd (SentimentNet.dot C (get2 P j) weight)
                                    (Some bias).
Proof.
  intros Hshape Hlen.
  destruct (MeanPoolingFacts.hybrid_forward_entries _ vl T N C Hshape Hlen)
    as (P & HP & HPshape & _).
  exists P. eexists. split; [exact HP|].
  unfold SentimentNet.hybrid_forward. rewrite HP. cbn [bind].
  split; [reflexivity|].
  unfold SentimentNet.output, SentimentNet.Dropout, SentimentNet.Dense.
  rewrite HPshape. cbn [shape2 get2]. split; reflexivity.
Qed.

(** X10.  A valid length of 0 goes through the network silently: on a
    batch with at least one time step and one feature channel the network
    returns normally, one logit per example, and the logit of an example
    whose valid length is 0 is the NaN of the pooling division, carried
    through the dense layer. *)
Theorem logit_undefined_at_zero_length
  (data : NDArray2 nat) (vl : list nat) (T N C j : nat) :
  shape3 (encoder (embedding data)) = (T, N, C) -> length vl = N ->
  (1 <= T)%nat -> (1 <= C)%nat -> (j < N)%nat -> nth j vl O = O ->
  exists out,
    SentimentNet.hybrid_forward embedding encoder weight bias data vl
    = Some out /\
    shape2 out = (N, 1%nat) /\
    get2 out j O = None.
Proof.
  intros Hshape Hlen _ HC Hj Hzero.
  destruct (hybrid_forward_rows data vl T N C Hshape Hlen)
    as (P & out & HP & Hout & Hoshape & Hrow).
  exists out. split; [exact Hout|]. split; [exact Hoshape|].
  destruct (MeanPoolingFacts.pooled_entry_undefined_at_zero
              _ vl T N C j Hshape Hlen Hj Hzero) as (P' & HP' & _ & Hundef).
  rewrite HP in HP'. injection HP' as <-.
  rewrite Hrow, dot_none; [reflexivity|].
  exists O. split; [lia|]. apply Hundef. lia.
Qed.

End Net.

Lemma toy_embedding_shape (data : NDArray2 nat) :
  shape3 (Toy.encoder (Toy.embedding data))
  = (fst (shape2 data), snd (shape2 data), 1%nat).
Proof.
  unfold Toy.encoder, Toy.embedding. destruct (shape2 data) as [T N].
  reflexivity.
Qed.

Lemma logit_undefined_at_zero_length_witness :
  exists out,
    Toy.net (transpose (array2 [[0; 0]; [4; 4]]%nat)) [0; 2]%nat = Some out /\
    shape2 out = (2%nat, 1%nat) /\
    get2 out 0%nat O = None.
Proof.
  apply (logit_undefined_at_zero_length Toy.embedding Toy.encoder Toy.weight
           Toy.bias (transpose (array2 [[0; 0]; [4; 4]]%nat)) [0; 2]%nat
           2 2 1 0).
  - reflexivity.
  - reflexivity.
  - lia.
  - lia.
  - lia.
  - reflexivity.
Defined.

End NetFacts.

(** ** More on the evaluation pass *)

Module EvaluateMore.

Import NDArray Data Evaluate.
Local Open Scope Q_scope.

Lemma correct_num_le (p label : list Q) :
  (correct_num p label <= length label)%nat.
Proof.
  unfold correct_num.
  etransitivity; [apply filter_length_le|].
  rewrite length_combine. apply Nat.le_min_r.
Qed.

Lemma pred_length (output : NDArray2 (option Q)) :
  length (pred output) = fst (shape2 output).
Proof.
  unfold pred. destruct (shape2 output) as [n m].
  rewrite length_map, length_seq. reflexivity.
Qed.

Section Loop.

Variable net : NDArray2 nat -> list nat -> option (NDArray2 (option Q)).
Variable SigmoidBCELoss : NDArray2 (option Q) -> list Q -> list Q.

Lemma evaluate_step_counts (acc acc' : totals) (b : batch) :
  evaluate_step net SigmoidBCELoss acc b = Some acc' ->
  total_sample_num acc' = (total_sample_num acc + length (snd b))%nat /\
  (total_correct_num acc <= total_correct_num acc')%nat /\
  (total_correct_num acc' - total_correct_num acc <= length (snd b))%nat.
Proof.
  destruct b as [[data valid_length] label]. cbn [evaluate_step snd].
  destruct (net (transpose (array2 data)) valid_length) as [output|];
    cbn [bind]; [|discriminate].
  destruct (length (pred output) =? length label)%nat; [|discriminate].
  intros H. injection H as <-.
  cbn [total_sample_num total_correct_num].
  pose proof (correct_num_le (pred output) label). repeat split; lia.
Qed.

(** The loop counts every label once and never more correct predictions
    than labels. *)
Lemma evaluate_loop_counts (dataloader : list batch) (acc final : totals) :
  evaluate_loop net SigmoidBCELoss acc dataloader = Some final ->
  total_sample_num final
  = (total_sample_num acc + length (concat (map snd dataloader)))%nat /\
  (total_correct_num acc <= total_correct_num final)%nat /\
  (total_correct_num final - total_correct_num acc
   <= length (concat (map snd dataloader)))%nat.
Proof.
  revert acc. induction dataloader as [|b rest IH]; intros acc Hloop.
  - cbn in Hloop. injection Hloop as <-. cbn. repeat split; lia.
  - cbn [evaluate_loop] in Hloop.
    destruct (evaluate_step net SigmoidBCELoss acc b) as [acc'|] eqn:Hstep;
      cbn [bind] in Hloop; [|discriminate].
    destruct (evaluate_step_counts _ _ _ Hstep) as (Hn & Hc1 & Hc2).
    destruct (IH _ Hloop) as (IHn & IHc1 & IHc2).
    cbn [map concat]. rewrite length_app. repeat split; lia.
Qed.

Lemma evaluate_accuracy_range (dataloader : list batch) (avg_L acc : Q) :
  evaluate net SigmoidBCELoss dataloader = Some (avg_L, acc) -> 0 <= acc <= 1.
Proof.
  unfold evaluate.
  destruct (evaluate_loop net SigmoidBCELoss _ dataloader) as [final|] eqn:Hloop;
    cbn [bind]; [|discriminate].
  destruct (evaluate_loop_counts _ _ _ Hloop) as (Hn & _ & Hc).
  cbn [total_sample_num total_correct_num] in Hn, Hc.
  rewrite Nat.add_0_l in Hn. rewrite Nat.sub_0_r in Hc.
  destruct (Nat.eqb_spec (total_sample_num final) 0) as [H0 | Hn0];
    [discriminate|].
  intros H. injection H as _ <-.
  assert (Hpos : 0 < float_of_nat (total_sample_num final))
    by (apply SumFacts.float_of_nat_pos; lia).
  split.
  - apply Qle_shift_div_l; [exact Hpos|]. rewrite Qmult_0_l.
    unfold float_of_nat, Qle. cbn. lia.
  - apply Qle_shift_div_r; [exact Hpos|]. rewrite Qmult_1_l.
    unfold float_of_nat, Qle. cbn. lia.
Qed.

Lemma evaluate_step_correct (acc acc' : totals) (b : batch) :
  evaluate_step net SigmoidBCELoss acc b = Some acc' ->
  total_correct_num acc'
  = (total_correct_num acc + Accuracy.batch_correct net b)%nat.
Proof.
  destruct b as [[data valid_length] label].
  cbn [evaluate_step Accuracy.batch_correct].
  destruct (net (transpose (array2 data)) valid_length) as [output|];
    cbn [bind]; [|discriminate].
  destruct (length (pred output) =? length label)%nat; [|discriminate].
  intros H. injection H as <-. reflexivity.
Qed.

Lemma evaluate_loop_correct (dataloader : list batch) (acc final : totals) :
  evaluate_loop net SigmoidBCELoss acc dataloader = Some final ->
  total_correct_num final
  = (total_correct_num acc
     + list_sum (map (Accuracy.batch_correct net) dataloader))%nat.
Proof.
  revert acc. induction dataloader as [|b rest IH]; intros acc Hloop.
  - cbn in Hloop. injection Hloop as <-. cbn. lia.
  - cbn [evaluate_loop] in Hloop.
    destruct (evaluate_step net SigmoidBCELoss acc b) as [acc'|] eqn:Hstep;
      cbn [bind] in Hloop; [|discriminate].
    rewrite (IH _ Hloop), (evaluate_step_correct _ _ _ Hstep).
    cbn [map]. change (list_sum (?x :: ?l)) with (x + list_sum l)%nat. lia.
Qed.

(** X11.  Whenever [evaluate] returns, the accuracy is the number of
    predictions that equal their label, summed over the batches of the
    loader, divided by the number of labels of the loader; at least one
    label was seen, no more predictions are counted correct than there
    are labels, and the accuracy lies between 0 and 1. *)
Theorem evaluate_accuracy_is_fraction (dataloader : list batch) (avg_L acc : Q) :
  evaluate net SigmoidBCELoss dataloader = Some (avg_L, acc) ->
  (1 <= length (concat (map snd dataloader)))%nat /\
  (list_sum (map (Accuracy.batch_correct net) dataloader)
   <= length (concat (map snd dataloader)))%nat /\
  acc = float_of_nat (list_sum (map (Accuracy.batch_correct net) dataloader))
        / float_of_nat (length (concat (map snd dataloader))) /\
  0 <= acc <= 1.
Proof.
  intros Heval. pose proof (evaluate_accuracy_range _ _ _ Heval) as Hrange.
  revert Heval. unfold evaluate.
  destruct (evaluate_loop net SigmoidBCELoss _ dataloader) as [final|] eqn:Hloop;
    cbn [bind]; [|discriminate].
  destruct (evaluate_loop_counts _ _ _ Hloop) as (Hn & _ & Hc).
  pose proof (evaluate_loop_correct _ _ _ Hloop) as Hcorrect.
  cbn [total_sample_num total_correct_num] in Hn, Hc, Hcorrect.
  rewrite Nat.add_0_l in Hn, Hcorrect. rewrite Nat.sub_0_r in Hc.
  destruct (Nat.eqb_spec (total_sample_num final) 0) as [H0 | Hn0];
    [discriminate|].
  intros H. injection H as _ <-. rewrite Hn, Hcorrect in *.
  repeat split; try lia; apply Hrange.
Qed.

End Loop.

Lemma evaluate_accuracy_is_fraction_witness :
  (1 <= length (concat (map snd
          [(([[0; 0]; [4; 4]]%nat, [0; 2]%nat), [inject_Z 0; inject_Z 1])])))%nat /\
  (list_sum (map (Accuracy.batch_correct Toy.net)
          [(([[0; 0]; [4; 4]]%nat, [0; 2]%nat), [inject_Z 0; inject_Z 1])])
   <= length (concat (map snd
          [(([[0; 0]; [4; 4]]%nat, [0; 2]%nat), [inject_Z 0; inject_Z 1])])))%nat /\
  2 # 2 = float_of_nat (list_sum (map (Accuracy.batch_correct Toy.net)
            [(([[0; 0]; [4; 4]]%nat, [0; 2]%nat), [inject_Z 0; inject_Z 1])]))
          / float_of_nat (length (concat (map snd
              [(([[0; 0]; [4; 4]]%nat, [0; 2]%nat), [inject_Z 0; inject_Z 1])]))) /\
  0 <= 2 # 2 <= 1.
Proof.
  apply (evaluate_accuracy_is_fraction Toy.net Toy.no_loss
           [(([[0; 0]; [4; 4]]%nat, [0; 2]%nat), [inject_Z 0; inject_Z 1])]
           (0 # 2) (2 # 2)).
  vm_compute. reflexivity.
Defined.

End EvaluateMore.

(** ** Evaluation of a preprocessed dataset, end to end *)

Module EndToEnd.

Import NDArray Data Evaluate Loader PipelineMore.
Local Open Scope nat_scope.

Lemma DataLoader_total (dataset : list (list nat * Z)) (batch_size : nat) :
  1 <= batch_size ->
  exists batches,
    DataLoader dataset batch_size = Some batches /\
    length batches = (length dataset + batch_size - 1) / batch_size.
Proof.
  intros Hbs.
  destruct (chunks_spec batch_size dataset Hbs) as (Hcount & Hchunks & _).
  destruct (mapM_total batchify_fn (chunks batch_size dataset)) as [batches Hbatches].
  { eapply Forall_impl; [|exact Hchunks].
    intros samples [Hne _]. apply batchify_fn_nonempty, Hne. }
  exists batches. split; [exact Hbatches|].
  apply BatchFacts.mapM_some in Hbatches.
  rewrite <- (Forall2_length Hbatches). exact Hcount.
Qed.

Section Net.

Variable embedding : NDArray2 nat -> NDArray3.
Variable encoder : NDArray3 -> NDArray3.
Variable weight : nat -> Q.
Variable bias : Q.
Variable SigmoidBCELoss : NDArray2 (option Q) -> list Q -> list Q.

(** What is asked of the pre-trained embedding and encoder: token ids of
    shape (T, N) come back as features of shape (T, N, C). *)
Hypothesis features_shape :
  forall data : NDArray2 nat,
  exists C, shape3 (encoder (embedding data))
            = (fst (shape2 data), snd (shape2 data), C).

Lemma evaluate_step_total (samples : list (list nat * Z)) (b : batch)
  (acc : totals) :
  batchify_fn samples = Some b ->
  exists acc', evaluate_step (SentimentNet.hybrid_forward embedding encoder weight bias)
      SigmoidBCELoss acc b = Some acc'.
Proof.
  intros Hb. pose proof (batchify_fn_label_count _ _ Hb) as Hlabels.
  destruct b as [[padded valid_length] label]. cbn [snd] in Hlabels.
  destruct (BatchFacts.batchify_fn_some _ _ _ _ Hb) as [HPad _].
  destruct (BatchFacts.Pad_length _ _ _ HPad) as [Hrows Hvl].
  rewrite length_map in Hrows, Hvl.
  cbn [evaluate_step].
  set (data := transpose (array2 padded)).
  assert (Hdata : shape2 data = (max_len padded, length padded)) by reflexivity.
  destruct (features_shape data) as [C HC]. rewrite Hdata in HC. cbn [fst snd] in HC.
  destruct (NetFacts.hybrid_forward_rows embedding encoder weight bias data
              valid_length _ _ _ HC) as (P & out & _ & Hout & Hoshape & _).
  { congruence. }
  rewrite Hout. cbn [bind].
  rewrite EvaluateMore.pred_length, Hoshape. cbn [fst].
  replace (length padded =? length label) with true
    by (symmetry; apply Nat.eqb_eq; congruence).
  eexists. reflexivity.
Qed.

Lemma evaluate_loop_total (batches : list batch) :
  Forall (fun b => exists samples, batchify_fn samples = Some b) batches ->
  forall acc, exists final,
    evaluate_loop (SentimentNet.hybrid_forward embedding encoder weight bias)
      SigmoidBCELoss acc batches = Some final.
Proof.
  induction 1 as [|b rest [samples Hb] _ IH]; intros acc.
  - eexists. reflexivity.
  - cbn [evaluate_loop].
    destruct (evaluate_step_total samples b acc Hb) as [acc' Hstep].
    rewrite Hstep. cbn [bind]. apply IH.
Qed.

Lemma batch_width_covers (samples : list (list nat * Z))
  (padded : list (list nat)) (valid_length : list nat) (label : list Q)
  (x : list nat * Z) :
  batchify_fn samples = Some ((padded, valid_length), label) ->
  In x samples -> length (fst x) <= max_len padded.
Proof.
  intros Hb Hin.
  destruct (BatchFacts.batchify_fn_some _ _ _ _ Hb) as [HPad _].
  rewrite (BatchFacts.Pad_max_len _ _ _ HPad).
  destruct (BatchFacts.Pad_some _ _ _ HPad) as (_ & Hl & _).
  assert (Hbound : Forall (fun k => k <= list_max valid_length) valid_length)
    by (apply list_max_le; lia).
  rewrite Forall_forall in Hbound. apply Hbound.
  rewrite Hl, map_map. apply (in_map (fun s => length (fst s))), Hin.
Qed.

(** X12.  On a non-empty preprocessed dataset, with a batch size of at
    least 1 and at least one example with a token in every group of
    [batch_size] consecutive examples, the test loader and the evaluation
    pass both go through, for any embedding and encoder that keep the
    (T, N) layout: every batch has a padded width of at least 1, and
    [evaluate] returns an average loss and an accuracy, so that its checks
    on the batch dimension pass and the sample count it divides by is not
    zero. *)
Theorem evaluate_succeeds_on_test_loader
  (dataset : list (list nat * Z)) (batch_size : nat) :
  dataset <> [] -> 1 <= batch_size ->
  Forall (fun group => exists x, In x group /\ fst x <> [])
         (chunks batch_size dataset) ->
  exists batches avg_L acc,
    DataLoader dataset batch_size = Some batches /\
    Forall (fun b : batch => 1 <= max_len (fst (fst b))) batches /\
    evaluate (SentimentNet.hybrid_forward embedding encoder weight bias)
      SigmoidBCELoss batches = Some (avg_L, acc).
Proof.
  intros Hne Hbs Htokens.
  destruct (DataLoader_total dataset batch_size Hbs) as (batches & Hbatches & Hcount).
  exists batches.
  pose proof (BatchFacts.DataLoader_batches _ _ _ Hbatches) as Hall.
  assert (Hwidth : Forall (fun b : batch => 1 <= max_len (fst (fst b))) batches).
  { pose proof Hbatches as Hpairs. unfold DataLoader in Hpairs.
    apply BatchFacts.mapM_some in Hpairs.
    clear Hbatches Hcount Hall.
    induction Hpairs as [|group b groups bs Hb _ IH]; [constructor|].
    inversion Htokens as [|? ? (x & Hin & Hx) Hrest]; subst.
    constructor; [|apply IH, Hrest].
    destruct b as [[padded valid_length] label]. cbn [fst].
    pose proof (batch_width_covers _ _ _ _ x Hb Hin) as Hle.
    destruct (fst x); [contradiction | cbn [length] in Hle; lia]. }
  destruct (evaluate_loop_total batches Hall
              {| total_L := 0; total_sample_num := O; total_correct_num := O |})
    as [final Hfinal].
  unfold evaluate. rewrite Hfinal. cbn [bind].
  destruct (EvaluateMore.evaluate_loop_counts _ _ _ _ _ Hfinal) as (Hn & _ & _).
  cbn [total_sample_num] in Hn.
  assert (Hpos : 1 <= length (concat (map snd batches))).
  { destruct batches as [|b rest].
    - exfalso. cbn [length] in Hcount. symmetry in Hcount.
      assert (0 < (length dataset + batch_size - 1) / batch_size).
      { apply Nat.div_str_pos. destruct dataset; [contradiction | cbn; lia]. }
      lia.
    - inversion Hall as [|? ? [samples Hb] _]; subst.
      pose proof (batchify_fn_label_count _ _ Hb) as Hlabels.
      cbn [map concat]. rewrite length_app, Hlabels.
      destruct samples; [discriminate Hb | cbn; lia]. }
  destruct (Nat.eqb_spec (total_sample_num final) 0) as [H0 | _]; [lia|].
  do 2 eexists. split; [exact Hbatches|]. split; [exact Hwidth | reflexivity].
Qed.

End Net.

Lemma evaluate_succeeds_on_test_loader_witness :
  exists batches avg_L acc,
    DataLoader (fst (preprocess_dataset Toy.tokenizer Toy.vocab Toy.empty_review))
               32 = Some batches /\
    Forall (fun b : batch => 1 <= max_len (fst (fst b))) batches /\
    evaluate Toy.net Toy.no_loss batches = Some (avg_L, acc).
Proof.
  apply (evaluate_succeeds_on_test_loader Toy.embedding Toy.encoder Toy.weight
           Toy.bias Toy.no_loss
           (fun data => ex_intro _ 1 (NetFacts.toy_embedding_shape data))
           (fst (preprocess_dataset Toy.tokenizer Toy.vocab Toy.empty_review))
           32).
  - vm_compute. discriminate.
  - lia.
  - vm_compute. constructor; [|constructor].
    exists ([4; 4], 1%Z). split; [right; left; reflexivity | discriminate].
Defined.

End EndToEnd.

(** ** Examples without tokens on the two paths *)

Module ZeroLengthPaths.

Import NDArray Data Sampler Loader.
Local Open Scope nat_scope.

Lemma In_chunks {A : Type} (n : nat) (l : list A) (x : A) :
  1 <= n -> In x l -> exists group, In group (chunks n l) /\ In x group.
Proof.
  intros Hn Hin. rewrite <- (SamplerFacts.concat_chunks n l Hn) in Hin.
  apply in_concat in Hin. exact Hin.
Qed.

Lemma Forall2_In_l {A B : Type} (R : A -> B -> Prop) (l : list A)
  (l' : list B) (a : A) :
  Forall2 R l l' -> In a l -> exists b, In b l' /\ R a b.
Proof.
  induction 1 as [|x y l l' Hxy _ IH]; intros Hin; [contradiction|].
  destruct Hin as [<- | Hin].
  - exists y. split; [left; reflexivity | exact Hxy].
  - destruct (IH Hin) as (b & Hb & HR). exists b.
    split; [right; exact Hb | exact HR].
Qed.

(** The test loader on a dataset that holds an example without tokens: the
    batches are produced, and one of them carries the valid length 0. *)
Lemma DataLoader_carries_zero_length (dataset : list (list nat * Z))
  (batch_size : nat) (label : Z) :
  1 <= batch_size -> In ([], label) dataset ->
  exists batches padded valid_length labels j,
    DataLoader dataset batch_size = Some batches /\
    In ((padded, valid_length), labels) batches /\
    length valid_length = length padded /\
    j < length valid_length /\ nth j valid_length O = O.
Proof.
  intros Hbs Hin.
  destruct (EndToEnd.DataLoader_total dataset batch_size Hbs)
    as (batches & Hbatches & _).
  pose proof Hbatches as Hpairs. unfold DataLoader in Hpairs.
  apply BatchFacts.mapM_some in Hpairs.
  destruct (In_chunks batch_size dataset _ Hbs Hin) as (group & Hgroup & Hx).
  destruct (Forall2_In_l _ _ _ _ Hpairs Hgroup) as (b & Hb & Hbatch).
  destruct b as [[padded valid_length] labels].
  destruct (BatchFacts.batchify_fn_some _ _ _ _ Hbatch) as [HPad _].
  destruct (BatchFacts.Pad_length _ _ _ HPad) as [Hrows Hvl].
  destruct (BatchFacts.Pad_some _ _ _ HPad) as (_ & Hlengths & _).
  assert (Hzero : In O valid_length).
  { rewrite Hlengths, map_map.
    apply (in_map (fun s : list nat * Z => length (fst s)) group _ Hx). }
  destruct (In_nth _ _ O Hzero) as (j & Hj & Hnth).
  exists batches, padded, valid_length, labels, j.
  repeat split; try assumption. congruence.
Qed.

(** C3, amended.  An example whose token sequence has length 0 after
    tokenization and clipping is rejected on the training path only.
    Preprocessing keeps it, at its index, with an empty id sequence and the
    length entry 0.0.  The bucket sampler refuses a length of 0, for every
    configuration, so [get_dataloader] fails on a training set that holds
    such an example.  The test loader uses no sampler: for every batch size
    of at least 1 it produces its batches, and one of them carries the valid
    length 0 at some position; nothing is rejected or filtered there.  When
    that batch has a padded width of at least 1, the pooling layer returns
    normally on it, for features of any width, and every pooled entry of
    the example at that position is undefined, the result of the unguarded
    division by the valid length 0. *)
Theorem zero_length_example_rejected_by_sampler_only
  (tokenizer : string -> list string) (vocab : string -> nat)
  (dataset : list (string * Z)) (i : nat) (text : string) (rating : Z) :
  nth_error dataset i = Some (text, rating) ->
  length_clip (tokenizer text) = [] ->
  (exists label,
     nth_error (fst (preprocess_dataset tokenizer vocab dataset)) i
     = Some ([], label)) /\
  nth_error (snd (preprocess_dataset tokenizer vocab dataset)) i
  = Some (float_of_nat 0) /\
  (forall (bucket_scheme : list nat -> nat -> list nat)
          (scale : nat -> Q -> nat -> nat -> nat)
          (batch_size num_buckets : nat) (ratio : Q) (flag : bool),
     FixedBucketSampler bucket_scheme scale
       (int_lengths (snd (preprocess_dataset tokenizer vocab dataset)))
       batch_size num_buckets ratio flag = None) /\
  (forall (bucket_scheme : list nat -> nat -> list nat)
          (scale : nat -> Q -> nat -> nat -> nat)
          (test_dataset : list (list nat * Z)),
     get_dataloader bucket_scheme scale test_dataset
       (snd (preprocess_dataset tokenizer vocab dataset)) = None) /\
  (forall batch_size, 1 <= batch_size ->
     ~ rejected_or_filtered tokenizer vocab dataset batch_size /\
     exists batches padded valid_length labels j,
       DataLoader (fst (preprocess_dataset tokenizer vocab dataset)) batch_size
       = Some batches /\
       In ((padded, valid_length), labels) batches /\
       j < length valid_length /\ nth j valid_length O = O /\
       forall (F : NDArray3) (C : nat),
         shape3 F = (max_len padded, length padded, C) ->
         1 <= max_len padded ->
         exists P,
           MeanPoolingLayer.hybrid_forward F valid_length = Some P /\
           forall c, c < C -> get2 P j c = None).
Proof.
  intros Hi Hempty.
  assert (Hkept : nth_error (fst (preprocess_dataset tokenizer vocab dataset)) i
                  = Some ([], if (5 <? rating)%Z then 1%Z else 0%Z)).
  { rewrite PreprocessFacts.preprocess_dataset_keeps, Hi.
    cbn [option_map preprocess]. rewrite Hempty. reflexivity. }
  assert (Hlength : nth_error (snd (preprocess_dataset tokenizer vocab dataset)) i
                    = Some (float_of_nat 0)).
  { rewrite PreprocessFacts.preprocess_dataset_snd.
    unfold pool_map. rewrite nth_error_map, Hkept. reflexivity. }
  assert (Hzero : In O (int_lengths
                          (snd (preprocess_dataset tokenizer vocab dataset)))).
  { unfold int_lengths.
    rewrite <- (PreprocessFacts.float_of_nat_floor 0).
    apply (in_map (fun q => Z.to_nat (Qfloor q))).
    apply (nth_error_In _ i), Hlength. }
  split; [eexists; exact Hkept|]. split; [exact Hlength|].
  split; [|split].
  - intros. apply SamplerFacts.FixedBucketSampler_zero_length, Hzero.
  - intros. unfold get_dataloader.
    rewrite (SamplerFacts.FixedBucketSampler_zero_length _ _ _ _ _ _ _ Hzero).
    reflexivity.
  - intros batch_size Hbs.
    destruct (DataLoader_carries_zero_length
                (fst (preprocess_dataset tokenizer vocab dataset)) batch_size
                _ Hbs (nth_error_In _ i Hkept))
      as (batches & padded & valid_length & labels & j
          & Hbatches & Hb & Hlen & Hj & Hnth).
    split.
    + unfold rejected_or_filtered. rewrite Hbatches. intros Hall.
      rewrite Forall_forall in Hall. specialize (Hall _ Hb). cbn [fst snd] in Hall.
      rewrite Forall_forall in Hall.
      specialize (Hall _ (nth_In valid_length O Hj)). lia.
    + exists batches, padded, valid_length, labels, j.
      repeat split; try assumption.
      intros F C HF _.
      destruct (MeanPoolingFacts.pooled_entry_undefined_at_zero F valid_length
                  _ _ _ j HF Hlen) as (P & HP & _ & Hnone); [lia | exact Hnth |].
      exists P. split; assumption.
Qed.

Lemma zero_length_example_rejected_by_sampler_only_witness :
  (exists label,
     nth_error (fst (preprocess_dataset Toy.tokenizer Toy.vocab
                       Toy.empty_review)) 0
     = Some ([], label)) /\
  nth_error (snd (preprocess_dataset Toy.tokenizer Toy.vocab
                    Toy.empty_review)) 0
  = Some (float_of_nat 0) /\
  (forall (bucket_scheme : list nat -> nat -> list nat)
          (scale : nat -> Q -> nat -> nat -> nat)
          (batch_size num_buckets : nat) (ratio : Q) (flag : bool),
     FixedBucketSampler bucket_scheme scale
       (int_lengths (snd (preprocess_dataset Toy.tokenizer Toy.vocab
                            Toy.empty_review)))
       batch_size num_buckets ratio flag = None) /\
  (forall (bucket_scheme : list nat -> nat -> list nat)
          (scale : nat -> Q -> nat -> nat -> nat)
          (test_dataset : list (list nat * Z)),
     get_dataloader bucket_scheme scale test_dataset
       (snd (preprocess_dataset Toy.tokenizer Toy.vocab Toy.empty_review))
     = None) /\
  (forall batch_size, 1 <= batch_size ->
     ~ rejected_or_filtered Toy.tokenizer Toy.vocab Toy.empty_review
         batch_size /\
     exists batches padded valid_length labels j,
       DataLoader (fst (preprocess_dataset Toy.tokenizer Toy.vocab
                          Toy.empty_review)) batch_size
       = Some batches /\
       In ((padded, valid_length), labels) batches /\
       j < length valid_length /\ nth j valid_length O = O /\
       forall (F : NDArray3) (C : nat),
         shape3 F = (max_len padded, length padded, C) ->
         1 <= max_len padded ->
         exists P,
           MeanPoolingLayer.hybrid_forward F valid_length = Some P /\
           forall c, c < C -> get2 P j c = None).
Proof.
  apply (zero_length_example_rejected_by_sampler_only Toy.tokenizer Toy.vocab
           Toy.empty_review 0 EmptyString 3%Z).
  - reflexivity.
  - vm_compute. reflexivity.
Defined.

End ZeroLengthPaths.

(** ** The printed sentiment *)

Module CellFacts.

Import NDArray Data Inference Cell.

Lemma Q2R_pos_iff (q : Q) : (0 < Q2R q)%R <-> (0 < q)%Q.
Proof.
  rewrite <- RMicromega.Q2R_0. split.
  - apply Qreals.Rlt_Qlt.
  - apply Qreals.Qlt_Rlt.
Qed.

Lemma verdict_positive_iff (o : option Q) :
  verdict (sigmoid_entry o) = "Positive"%string
  <-> exists q, o = Some q /\ (0 < q)%Q.
Proof.
  destruct o as [q|]; cbn [sigmoid_entry verdict].
  - destruct (Rlt_dec (1 / 2) (sigmoid (Q2R q))) as [Hgt | Hle].
    + split; [|reflexivity]. intros _. exists q. split; [reflexivity|].
      apply Q2R_pos_iff, SigmoidFacts.sigmoid_gt_half_iff, Hgt.
    + split; [discriminate|]. intros (q' & Hq' & Hpos). injection Hq' as <-.
      exfalso. apply Hle, SigmoidFacts.sigmoid_gt_half_iff, Q2R_pos_iff, Hpos.
  - split; [discriminate|]. intros (q & Hq & _). discriminate.
Qed.

Lemma verdict_cases (r : option R) :
  verdict r = "Positive"%string \/ verdict r = "Negative"%string.
Proof.
  destruct r as [p|]; cbn [verdict]; [|right; reflexivity].
  destruct (Rlt_dec (1 / 2) p); [left | right]; reflexivity.
Qed.

(** X13.  The inference cell prints "Positive" exactly when the logit of
    the sentence is finite and strictly above 0; otherwise, so also for a
    logit of exactly 0, it prints "Negative". *)
Theorem cell_positive_iff_logit_positive
  (tokenizer : string -> list string) (vocab : string -> nat)
  (net : NDArray2 nat -> list nat -> option (NDArray2 (option Q)))
  (test_sentence : string) (out : NDArray2 (option Q)) :
  res_logits tokenizer vocab net test_sentence = Some out ->
  (inference_cell tokenizer vocab net test_sentence = Some "Positive"%string
   <-> exists q, get2 out O O = Some q /\ (0 < q)%Q) /\
  (inference_cell tokenizer vocab net test_sentence = Some "Negative"%string
   <-> ~ exists q, get2 out O O = Some q /\ (0 < q)%Q).
Proof.
  intros Hout. unfold inference_cell, res. rewrite Hout. cbn [bind].
  pose proof (verdict_positive_iff (get2 out O O)) as Hiff.
  destruct (verdict_cases (sigmoid_entry (get2 out O O))) as [Hv | Hv];
    rewrite Hv.
  - split.
    + split; [intros _; apply Hiff, Hv | reflexivity].
    + split; [discriminate|]. intros Hno. exfalso. apply Hno, Hiff, Hv.
  - split.
    + split; [discriminate|]. intros Hq. apply Hiff in Hq.
      rewrite Hv in Hq. discriminate.
    + split; [|reflexivity]. intros _ Hq. apply Hiff in Hq.
      rewrite Hv in Hq. discriminate.
Qed.

Lemma cell_positive_iff_logit_positive_witness :
  (inference_cell Toy.tokenizer Toy.vocab Toy.net Toy.test_sentence
   = Some "Positive"%string
   <-> exists q,
         get2 {| shape2 := (1%nat, 1%nat);
                 get2 := fun _ _ => Some (21 # 4) |} O O = Some q
         /\ (0 < q)%Q) /\
  (inference_cell Toy.tokenizer Toy.vocab Toy.net Toy.test_sentence
   = Some "Negative"%string
   <-> ~ exists q,
         get2 {| shape2 := (1%nat, 1%nat);
                 get2 := fun _ _ => Some (21 # 4) |} O O = Some q
         /\ (0 < q)%Q).
Proof.
  apply (cell_positive_iff_logit_positive Toy.tokenizer Toy.vocab Toy.net
           Toy.test_sentence).
  vm_compute. reflexivity.
Defined.

(** X14.  The evaluation pass and the inference cell disagree on a finite
    logit exactly when it lies in (0, 1/2]: there the cell says
    "Positive" while [evaluate] predicts 0.  Above 1/2, and only there,
    [evaluate] predicts 1 and the cell says "Positive" as well. *)
Theorem evaluate_and_cell_disagree_iff (q : Q) :
  (Evaluate.pred_entry (Some q) = 0%Q /\
   verdict (sigmoid_entry (Some q)) = "Positive"%string
   <-> (0 < q)%Q /\ (q <= 1 # 2)%Q) /\
  (Evaluate.pred_entry (Some q) = 1%Q /\
   verdict (sigmoid_entry (Some q)) = "Positive"%string
   <-> (1 # 2 < q)%Q).
Proof.
  assert (Hpred : Evaluate.pred_entry (Some q) = 1%Q <-> (1 # 2 < q)%Q).
  { rewrite EvaluateFacts.pred_entry_positive_iff. split.
    - intros (x & Hx & Hlt). injection Hx as <-. exact Hlt.
    - intros Hlt. exists q. split; [reflexivity | exact Hlt]. }
  assert (Hcases : Evaluate.pred_entry (Some q) = 1%Q
                   \/ Evaluate.pred_entry (Some q) = 0%Q).
  { cbn [Evaluate.pred_entry]. destruct (Evaluate.Qgtb q (1 # 2));
      [left | right]; reflexivity. }
  pose proof (verdict_positive_iff (Some q)) as Hverdict.
  split; split.
  - intros [H0 Hpos]. apply Hverdict in Hpos.
    destruct Hpos as (q' & Hq' & Hpos). injection Hq' as <-.
    split; [exact Hpos|]. apply Qnot_lt_le. intros Hlt.
    apply Hpred in Hlt. rewrite Hlt in H0. discriminate.
  - intros [Hpos Hle]. split.
    + destruct Hcases as [H1 | H0]; [|exact H0].
      apply Hpred in H1. exfalso. apply (Qlt_not_le _ _ H1), Hle.
    + apply Hverdict. exists q. split; [reflexivity | exact Hpos].
  - intros [H1 _]. apply Hpred, H1.
  - intros Hlt. split; [apply Hpred, Hlt|]. apply Hverdict. exists q.
    split; [reflexivity|]. eapply Qlt_trans; [|exact Hlt]. reflexivity.
Qed.

(** X15.  For a sentence with at least one token and an embedding and
    encoder that keep the one-column layout, the inference cell always
    answers: the network accepts the one-column batch together with the
    literal valid length, the probability, when it is a number, lies in
    the closed interval from 0 to 1, and one of the two sentiments is
    printed. *)
Theorem inference_cell_answers
  (tokenizer : string -> list string) (vocab : string -> nat)
  (embedding : NDArray2 nat -> NDArray3) (encoder : NDArray3 -> NDArray3)
  (weight : nat -> Q) (bias : Q) (test_sentence : string) :
  tokenizer test_sentence <> [] ->
  (forall ids, exists T C,
      shape3 (encoder (embedding (column ids))) = (T, 1%nat, C)) ->
  exists r,
    res tokenizer vocab
        (SentimentNet.hybrid_forward embedding encoder weight bias)
        test_sentence = Some r /\
    (forall p, r = Some p -> (0 <= p <= 1)%R) /\
    (inference_cell tokenizer vocab
       (SentimentNet.hybrid_forward embedding encoder weight bias)
       test_sentence = Some "Positive"%string \/
     inference_cell tokenizer vocab
       (SentimentNet.hybrid_forward embedding encoder weight bias)
       test_sentence = Some "Negative"%string).
Proof.
  intros _ Hshape.
  destruct (InferenceFacts.res_total tokenizer vocab embedding encoder weight
              bias test_sentence Hshape) as (p & Hres & Hrange).
  exists (Some p). split; [exact Hres|]. split.
  - intros p' Hp'. injection Hp' as <-. lra.
  - unfold inference_cell. rewrite Hres. cbn [bind].
    destruct (verdict_cases (Some p)) as [Hv | Hv]; rewrite Hv;
      [left | right]; reflexivity.
Qed.

Lemma inference_cell_answers_witness :
  exists r,
    res Toy.tokenizer Toy.vocab
        (SentimentNet.hybrid_forward Toy.embedding Toy.encoder Toy.weight
           Toy.bias)
        Toy.test_sentence = Some r /\
    (forall p, r = Some p -> (0 <= p <= 1)%R) /\
    (inference_cell Toy.tokenizer Toy.vocab
       (SentimentNet.hybrid_forward Toy.embedding Toy.encoder Toy.weight
          Toy.bias)
       Toy.test_sentence = Some "Positive"%string \/
     inference_cell Toy.tokenizer Toy.vocab
       (SentimentNet.hybrid_forward Toy.embedding Toy.encoder Toy.weight
          Toy.bias)
       Toy.test_sentence = Some "Negative"%string).
Proof.
  apply (inference_cell_answers Toy.tokenizer Toy.vocab Toy.embedding
           Toy.encoder Toy.weight Toy.bias Toy.test_sentence).
  - vm_compute. discriminate.
  - intros ids. exists (length ids), 1%nat. reflexivity.
Defined.

End CellFacts.

(** ** The training loop *)

Module TrainFacts.

Import NDArray Data Train.
Local Open Scope nat_scope.

Lemma div_succ_step (i n : nat) :
  1 <= n ->
  S i / n = i / n + (if S i mod n =? 0 then 1 else 0).
Proof.
  intros Hn.
  pose proof (Nat.div_mod_eq i n) as Hi.
  pose proof (Nat.div_mod_eq (S i) n) as HSi.
  pose proof (Nat.mod_upper_bound i n ltac:(lia)) as Hbi.
  pose proof (Nat.mod_upper_bound (S i) n ltac:(lia)) as HbSi.
  destruct (Nat.eqb_spec (S i mod n) 0) as [H0 | Hn0]; nia.
Qed.

Section Loop.

Variable params : Type.
Variable net : params -> NDArray2 nat -> list nat
               -> option (NDArray2 (option Q)).
Variable SigmoidBCELoss : NDArray2 (option Q) -> list Q -> list Q.
Variable trainer_step : params -> batch -> params.

Lemma train_step_stats (epoch num_batches i : nat) (st st' : progress params)
  (b : batch) :
  train_step params net SigmoidBCELoss trainer_step epoch num_batches i st b
  = Some st' ->
  epoch_wc (count st') = epoch_wc (count st) + list_sum (snd (fst b)) /\
  epoch_sent_num (count st')
  = epoch_sent_num (count st) + max_len (fst (fst b)) /\
  length (printed st')
  = length (printed st)
    + (if S i mod Hyperparameters.log_interval =? 0 then 1 else 0) /\
  words_accounted st' = words_accounted st + list_sum (snd (fst b)).
Proof.
  destruct b as [[data valid_length] label]. cbn [train_step fst snd].
  destruct (net (net_params st) (transpose (array2 data)) valid_length)
    as [output|]; cbn [bind]; [|discriminate].
  replace (i + 1) with (S i) by lia.
  unfold words_accounted.
  destruct (S i mod Hyperparameters.log_interval =? 0);
    intros H; injection H as <-;
    cbn [count printed epoch_wc epoch_sent_num log_interval_wc].
  - rewrite length_app, map_app, list_sum_app. cbn. repeat split; lia.
  - repeat split; lia.
Qed.

Lemma train_loop_stats (epoch num_batches : nat) (batches : list batch) :
  forall (i : nat) (st st' : progress params),
  train_loop params net SigmoidBCELoss trainer_step epoch num_batches i st
             batches = Some st' ->
  epoch_wc (count st')
  = epoch_wc (count st) + list_sum (concat (map (fun b => snd (fst b)) batches)) /\
  epoch_sent_num (count st')
  = epoch_sent_num (count st)
    + list_sum (map (fun b => max_len (fst (fst b))) batches) /\
  length (printed st') + i / Hyperparameters.log_interval
  = length (printed st) + (i + length batches) / Hyperparameters.log_interval /\
  words_accounted st'
  = words_accounted st + list_sum (concat (map (fun b => snd (fst b)) batches)).
Proof.
  induction batches as [|b rest IH]; intros i st st' Hloop.
  - cbn [train_loop] in Hloop. injection Hloop as <-.
    cbn [map concat length]. change (list_sum []) with 0.
    rewrite !Nat.add_0_r. repeat split; reflexivity.
  - cbn [train_loop] in Hloop.
    destruct (train_step params net SigmoidBCELoss trainer_step epoch
                num_batches i st b) as [st1|] eqn:Hstep;
      cbn [bind] in Hloop; [|discriminate].
    destruct (train_step_stats _ _ _ _ _ _ Hstep) as (Hwc & Hsn & Hpr & Hacc).
    destruct (IH _ _ _ Hloop) as (IHwc & IHsn & IHpr & IHacc).
    pose proof (div_succ_step i Hyperparameters.log_interval ltac:(cbv; lia))
      as Hdiv.
    cbn [map concat length]. rewrite list_sum_app.
    replace (i + S (length rest)) with (S i + length rest) by lia.
    assert (Hcons : forall a l, list_sum (a :: l) = a + list_sum l)
      by reflexivity.
    rewrite Hcons.
    destruct (S i mod Hyperparameters.log_interval =? 0);
      repeat split; lia.
Qed.

(** X16.  The statistics of a training epoch that runs through: the word
    count is the sum of the valid lengths of all batches; the count kept
    as [epoch_sent_num] is the sum of the padded lengths of the batches
    (it adds [data.shape[1]] of the batch-major array), so the printed
    training loss is [epoch_L] over that sum; a line is printed every 100
    batches, floor(batches / 100) lines in all; and every word is
    accounted for once, in a printed line or in the running interval. *)
Theorem train_loop_statistics (epoch : nat) (p : params)
  (batches : list batch) (st : progress params) :
  train_loop params net SigmoidBCELoss trainer_step epoch (length batches) 0
             (start_of_epoch params p) batches = Some st ->
  epoch_wc (count st)
  = list_sum (concat (map (fun b => snd (fst b)) batches)) /\
  epoch_sent_num (count st)
  = list_sum (map (fun b => max_len (fst (fst b))) batches) /\
  length (printed st) = length batches / Hyperparameters.log_interval /\
  list_sum (map line_wc (printed st)) + log_interval_wc (count st)
  = epoch_wc (count st).
Proof.
  intros Hloop.
  destruct (train_loop_stats _ _ _ _ _ _ Hloop) as (Hwc & Hsn & Hpr & Hacc).
  unfold words_accounted in Hacc.
  cbn [start_of_epoch count printed epoch_wc epoch_sent_num log_interval_wc
       map list_sum fold_right length] in *.
  rewrite (Nat.div_small 0) in Hpr by (cbv; lia).
  change (0 + length batches) with (length batches) in Hpr.
  repeat split; lia.
Qed.

End Loop.

Lemma train_loop_statistics_witness :
  epoch_wc (count ToyTrain.after_two_batches)
  = list_sum (concat (map (fun b : batch => snd (fst b)) ToyTrain.two_batches)) /\
  epoch_sent_num (count ToyTrain.after_two_batches)
  = list_sum (map (fun b : batch => max_len (fst (fst b)))
                  ToyTrain.two_batches) /\
  length (printed ToyTrain.after_two_batches)
  = length ToyTrain.two_batches / Hyperparameters.log_interval /\
  list_sum (map line_wc (printed ToyTrain.after_two_batches))
  + log_interval_wc (count ToyTrain.after_two_batches)
  = epoch_wc (count ToyTrain.after_two_batches).
Proof.
  apply (train_loop_statistics unit (fun _ => Toy.net) Toy.no_loss
           (fun p _ => p) 0 tt ToyTrain.two_batches
           ToyTrain.after_two_batches).
  vm_compute. reflexivity.
Defined.

(** A run of 779 batches prints the 7 lines that the notebook shows. *)
Example notebook_log_lines :
  (779 / Z.of_nat Hyperparameters.log_interval = 7)%Z.
Proof. reflexivity. Qed.

Section Epochs.

Variable params : Type.
Variable net : params -> NDArray2 nat -> list nat
               -> option (NDArray2 (option Q)).
Variable SigmoidBCELoss : NDArray2 (option Q) -> list Q -> list Q.
Variable trainer_step : params -> batch -> params.
Variable rng : Type.
Variable shuffle : forall A : Type, list A -> rng -> list A * rng.
Variable batch_sampler : Sampler.sampler.
Variable train_dataset : list (list nat * Z).
Variable test_dataloader : option (list batch).

Lemma train_step_params (epoch num_batches i : nat) (st st' : progress params)
  (b : batch) :
  train_step params net SigmoidBCELoss trainer_step epoch num_batches i st b
  = Some st' ->
  net_params st' = trainer_step (net_params st) b /\
  (Forall (fun l => line_epoch l = epoch) (printed st) ->
   Forall (fun l => line_epoch l = epoch) (printed st')).
Proof.
  destruct b as [[data valid_length] label]. cbn [train_step].
  destruct (net (net_params st) (transpose (array2 data)) valid_length)
    as [output|]; cbn [bind]; [|discriminate].
  destruct ((i + 1) mod Hyperparameters.log_interval =? 0);
    intros H; injection H as <-; cbn [net_params printed];
    (split; [reflexivity|]); intros Hall; [|exact Hall].
  apply Forall_app. split; [exact Hall|]. repeat constructor.
Qed.

(** Every batch updates the parameters once, in the order of the loader. *)
Lemma train_loop_params (epoch num_batches : nat) (batches : list batch) :
  forall (i : nat) (st st' : progress params),
  train_loop params net SigmoidBCELoss trainer_step epoch num_batches i st
             batches = Some st' ->
  net_params st' = fold_left trainer_step batches (net_params st) /\
  (Forall (fun l => line_epoch l = epoch) (printed st) ->
   Forall (fun l => line_epoch l = epoch) (printed st')).
Proof.
  induction batches as [|b rest IH]; intros i st st' Hloop.
  - cbn in Hloop. injection Hloop as <-. split; [reflexivity | tauto].
  - cbn [train_loop] in Hloop.
    destruct (train_step params net SigmoidBCELoss trainer_step epoch
                num_batches i st b) as [st1|] eqn:Hstep;
      cbn [bind] in Hloop; [|discriminate].
    destruct (train_step_params _ _ _ _ _ _ Hstep) as [Hp Hl].
    destruct (IH _ _ _ Hloop) as [IHp IHl].
    cbn [fold_left]. rewrite <- Hp. split; [exact IHp | tauto].
Qed.

(** The end-of-epoch line of an epoch that runs through. *)
Lemma train_epoch_line (epoch : nat) (p p' : params) (g g' : rng)
  (lines : list log_line) (line : epoch_line) :
  train_epoch params net SigmoidBCELoss trainer_step rng shuffle
              batch_sampler train_dataset test_dataloader epoch p g
  = (Some (p', lines, line), g') ->
  report_epoch line = epoch /\
  Forall (fun l => line_epoch l = epoch) lines /\
  (0 <= test_acc line <= 1)%Q.
Proof.
  unfold train_epoch.
  destruct (Loader.train_batches rng shuffle train_dataset batch_sampler g)
    as [[batches|] g1]; cbn [bind]; [|discriminate].
  destruct (train_loop params net SigmoidBCELoss trainer_step epoch
              (length batches) 0 (start_of_epoch params p) batches)
    as [st|] eqn:Hloop; cbn [bind]; [|discriminate].
  unfold end_of_epoch.
  destruct test_dataloader as [test_batches|]; cbn [bind]; [|discriminate].
  destruct (Evaluate.evaluate (net (net_params st)) SigmoidBCELoss test_batches)
    as [[avg_L acc]|] eqn:Heval; cbn [bind]; [|discriminate].
  destruct batches as [|b rest]; [discriminate|].
  intros H. injection H as <- <- <- <-. cbn [test_acc report_epoch].
  destruct (train_loop_params _ _ _ _ _ _ Hloop) as [_ Hlines].
  split; [reflexivity|]. split; [apply Hlines; constructor|].
  apply (EvaluateMore.evaluate_accuracy_range _ _ _ _ _ Heval).
Qed.

(** X17.  An epoch of [train] that runs through: the training loader gave
    at least one batch; the parameters were updated once per batch, in the
    order of the loader; the evaluation at the end of the epoch ran on the
    test loader with the updated parameters and its accuracy lies between
    0 and 1; the epoch line carries the epoch number, and floor(batches /
    100) progress lines were printed, all with that epoch number. *)
Theorem train_epoch_result (epoch : nat) (p p' : params) (g g' : rng)
  (lines : list log_line) (line : epoch_line) :
  train_epoch params net SigmoidBCELoss trainer_step rng shuffle
              batch_sampler train_dataset test_dataloader epoch p g
  = (Some (p', lines, line), g') ->
  exists batches test_batches,
    Loader.train_batches rng shuffle train_dataset batch_sampler g
    = (Some batches, g') /\
    batches <> [] /\
    p' = fold_left trainer_step batches p /\
    test_dataloader = Some test_batches /\
    Evaluate.evaluate (net p') SigmoidBCELoss test_batches
    = Some (test_avg_L line, test_acc line) /\
    (0 <= test_acc line <= 1)%Q /\
    report_epoch line = epoch /\
    length lines = length batches / Hyperparameters.log_interval /\
    Forall (fun l => line_epoch l = epoch) lines.
Proof.
  unfold train_epoch.
  destruct (Loader.train_batches rng shuffle train_dataset batch_sampler g)
    as [[batches|] g1]; cbn [bind]; [|discriminate].
  destruct (train_loop params net SigmoidBCELoss trainer_step epoch
              (length batches) 0 (start_of_epoch params p) batches)
    as [st|] eqn:Hloop; cbn [bind]; [|discriminate].
  unfold end_of_epoch.
  destruct test_dataloader as [test_batches|]; cbn [bind]; [|discriminate].
  destruct (Evaluate.evaluate (net (net_params st)) SigmoidBCELoss test_batches)
    as [[avg_L acc]|] eqn:Heval; cbn [bind]; [|discriminate].
  destruct batches as [|b rest] eqn:Hbatches; [discriminate|].
  rewrite <- Hbatches in *.
  intros H. injection H as <- <- <- <-. cbn [test_avg_L test_acc report_epoch].
  destruct (train_loop_params _ _ _ _ _ _ Hloop) as [Hp Hlines].
  destruct (train_loop_stats _ _ _ _ _ _ _ _ _ _ Hloop) as (_ & _ & Hpr & _).
  cbn [start_of_epoch net_params printed length] in Hp, Hlines, Hpr.
  rewrite (Nat.div_small 0) in Hpr by (cbv; lia).
  change (0 + length batches) with (length batches) in Hpr.
  exists batches, test_batches. rewrite Hp in *.
  repeat split; try reflexivity; try exact Heval.
  - rewrite Hbatches. discriminate.
  - apply (EvaluateMore.evaluate_accuracy_range _ _ _ _ _ Heval).
  - apply (EvaluateMore.evaluate_accuracy_range _ _ _ _ _ Heval).
  - lia.
  - apply Hlines. constructor.
Qed.

(** X18.  When [train] returns, it has printed exactly one end-of-epoch
    line per epoch, numbered from 0 in order, each with a test accuracy
    between 0 and 1, and the progress lines of epoch [k] all carry the
    number [k]. *)
Theorem train_prints_one_line_per_epoch
  (epochs : nat) (p p' : params) (g g' : rng)
  (reports : list (list log_line * epoch_line)) :
  train params net SigmoidBCELoss trainer_step rng shuffle batch_sampler
        train_dataset test_dataloader epochs p g
  = (Some (p', reports), g') ->
  length reports = epochs /\
  forall k lines line,
    nth_error reports k = Some (lines, line) ->
    report_epoch line = k /\
    Forall (fun l => line_epoch l = k) lines /\
    (0 <= test_acc line <= 1)%Q.
Proof.
  unfold train.
  assert (Hfrom : forall epochs epoch p p' g g' reports,
    train_from params net SigmoidBCELoss trainer_step rng shuffle
               batch_sampler train_dataset test_dataloader epochs epoch p g
    = (Some (p', reports), g') ->
    length reports = epochs /\
    forall k lines line,
      nth_error reports k = Some (lines, line) ->
      report_epoch line = epoch + k /\
      Forall (fun l => line_epoch l = epoch + k) lines /\
      (0 <= test_acc line <= 1)%Q).
  { clear. intros epochs.
    induction epochs as [|epochs IH]; intros epoch p p' g g' reports Htrain.
    - cbn in Htrain. injection Htrain as <- <- <-. split; [reflexivity|].
      intros [|k] lines line Hk; discriminate.
    - cbn [train_from] in Htrain.
      destruct (train_epoch params net SigmoidBCELoss trainer_step rng shuffle
                  batch_sampler train_dataset test_dataloader epoch p g)
        as [[[[p1 lines1] line1]|] g1] eqn:Hepoch; [|discriminate].
      destruct (train_from params net SigmoidBCELoss trainer_step rng shuffle
                  batch_sampler train_dataset test_dataloader epochs (S epoch)
                  p1 g1) as [[[p2 rest]|] g2] eqn:Hrest; [|discriminate].
      injection Htrain as <- <- <-.
      destruct (IH _ _ _ _ _ _ Hrest) as [IHlen IHnth].
      destruct (train_epoch_line _ _ _ _ _ _ _ Hepoch) as (Hnum & Hlines & Hacc).
      split; [cbn [length]; lia|].
      intros [|k] lines line Hk; cbn [nth_error] in Hk.
      + injection Hk as <- <-. rewrite Nat.add_0_r. repeat split; tauto.
      + destruct (IHnth _ _ _ Hk) as (H1 & H2 & H3).
        replace (epoch + S k) with (S epoch + k) by lia.
        repeat split; tauto. }
  intros Htrain. apply (Hfrom epochs 0 p p' g g' reports Htrain).
Qed.

End Epochs.

Lemma train_epoch_result_witness :
  exists batches test_batches,
    Loader.train_batches nat (@Toy.rotate) ToyTrain.train_set
                         ToyTrain.batch_sampler 1
    = (Some batches, 5) /\
    batches <> [] /\
    3 = fold_left ToyTrain.count_step batches 0 /\
    ToyTrain.test_loader = Some test_batches /\
    Evaluate.evaluate Toy.net Toy.no_loss test_batches
    = Some (test_avg_L (ToyTrain.summary 0), test_acc (ToyTrain.summary 0)) /\
    (0 <= test_acc (ToyTrain.summary 0) <= 1)%Q /\
    report_epoch (ToyTrain.summary 0) = 0 /\
    length (@nil log_line) = length batches / Hyperparameters.log_interval /\
    Forall (fun l => line_epoch l = 0) [].
Proof.
  apply (train_epoch_result nat (fun _ => Toy.net) Toy.no_loss
           ToyTrain.count_step nat (@Toy.rotate) ToyTrain.batch_sampler
           ToyTrain.train_set ToyTrain.test_loader 0 0 3 1 5 []
           (ToyTrain.summary 0)).
  vm_compute. reflexivity.
Defined.

Lemma train_prints_one_line_per_epoch_witness :
  length [(@nil log_line, ToyTrain.summary 0); ([], ToyTrain.summary 1)] = 2 /\
  forall k lines line,
    nth_error [(@nil log_line, ToyTrain.summary 0); ([], ToyTrain.summary 1)] k
    = Some (lines, line) ->
    report_epoch line = k /\
    Forall (fun l => line_epoch l = k) lines /\
    (0 <= test_acc line <= 1)%Q.
Proof.
  apply (train_prints_one_line_per_epoch nat (fun _ => Toy.net) Toy.no_loss
           ToyTrain.count_step nat (@Toy.rotate) ToyTrain.batch_sampler
           ToyTrain.train_set ToyTrain.test_loader 2 0 6 1 9).
  vm_compute. reflexivity.
Defined.

End TrainFacts.
